(** * APoT quantization codec and the data sparsifier container

    Two parts of the repository are covered.

    - [APoT]: the additive power-of-two codec that
      [test/quantization/core/experimental/test_quantized_tensor.py]
      exercises.  [TensorAPoT] and [APoTObserver] themselves are not among
      the source files, so the codec is modelled from the specification;
      the test oracles are taken from the test file.
    - [DataSparsifier]: [BaseDataSparsifier] of
      [torch/ao/sparsity/experimental/data_sparsifier/base_data_sparsifier.py],
      embedded method by method over a model of the [nn.Module] container
      and of [torch.nn.utils.parametrize]. *)

From Stdlib Require Import QArith Qround Qabs Lqa Lia ZArith List Bool Ascii.
From Stdlib Require Import Sorting.Sorted Sorting.Permutation.
From stdpp Require Import gmap strings list.

#[local] Set Warnings "-clear-no-such-hyp".

(** Outcome of a fallible call: the value, or the exception raised. *)
Inductive result (E A : Type) : Type :=
| Ok (a : A)
| Err (e : E).
Arguments Ok {E A} a.
Arguments Err {E A} e.

Module APoT.

Local Open Scope Q_scope.

(** Modelled from the spec: the error kinds of section 7. *)
Inductive codec_error : Type :=
| InvalidConfiguration
| InvalidCalibration
| DomainError
| IndexOutOfRange
| NotSupported.

(** Modelled from the spec: the tensor substrate of section 6, a shape and
    the flat row-major storage.  Scalars are exact rationals: every finite
    float is one, and the codec only adds, scales and compares. *)
Record Tensor : Type := mkTensor { tshape : list nat; tdata : list Q }.

(** Modelled from the spec: integer tensors, the QuantizedTensor of section
    3 and the input of [dequantize]. *)
Record IntTensor : Type := mkIntTensor { ishape : list nat; idata : list Z }.

Definition Qltb (x y : Q) : bool := negb (Qle_bool y x).

Section LevelGenerator.

(** Modelled from the spec: the table of additive terms.  The specification
    fixes that each of the [n = b/k] positions offers [2^k] power-of-two
    choices, zero among them, at a position-dependent exponent offset, and
    leaves the exponents (and the signed mirroring) open.
    [term signed n i j] is choice [j] of position [i]. *)
Variable term : bool -> nat -> nat -> nat -> Q.

(** Modelled from the spec: the [2^k] term choices of position [i]. *)
Definition position_terms (signed : bool) (n k i : nat) : list Q :=
  List.map (term signed n i) (seq 0 (2 ^ k)).

(** Modelled from the spec: the Cartesian sum over all positions of their
    term choices, enumerated with the first position most significant; the
    rank of a combination in this enumeration is its index-encoding. *)
Fixpoint cartesian_sums (choices : list (list Q)) : list Q :=
  match choices with
  | [] => [0]
  | c :: rest =>
      List.flat_map (fun x => List.map (Qplus x) (cartesian_sums rest)) c
  end.

(** Modelled from the spec: all [2^b] combinations for [n = b/k]
    positions. *)
Definition all_sums (signed : bool) (b k : nat) : list Q :=
  let n := Nat.div b k in
  cartesian_sums (List.map (position_terms signed n k) (seq 0 n)).

(** Modelled from the spec: a level together with its index-encoding. *)
Definition tag_encodings (l : list Q) : list (Q * nat) :=
  combine l (seq 0 (length l)).

(** Modelled from the spec: non-decreasing level order, ties broken by the
    smaller index-encoding. *)
Definition lex_leb (p q : Q * nat) : bool :=
  Qltb (fst p) (fst q) || (Qeq_bool (fst p) (fst q) && Nat.leb (snd p) (snd q)).

(** Modelled from the spec: the levels are produced sorted; insertion sort
    by [lex_leb]. *)
Fixpoint insert_level (p : Q * nat) (l : list (Q * nat)) : list (Q * nat) :=
  match l with
  | [] => [p]
  | q :: r => if lex_leb p q then p :: q :: r else q :: insert_level p r
  end.

Fixpoint sort_levels (l : list (Q * nat)) : list (Q * nat) :=
  match l with
  | [] => []
  | p :: r => insert_level p (sort_levels r)
  end.

Definition sorted_codebook (signed : bool) (b k : nat) : list (Q * nat) :=
  sort_levels (tag_encodings (all_sums signed b k)).

(** Modelled from the spec: section 4.1, [generate_levels(b, k, signed) ->
    (LevelSet, IndexSet)]; the generator is not among the source files.
    Fails with [InvalidConfiguration] unless [b] and [k] are positive and
    [k] divides [b]; the IndexSet is the dense rank of each sorted level. *)
Definition generate_levels (b k : nat) (signed : bool)
  : result codec_error (list Q * list Z) :=
  if (b =? 0)%nat || (k =? 0)%nat || negb (b mod k =? 0)%nat
  then Err InvalidConfiguration
  else
    let cb := sorted_codebook signed b k in
    Ok (List.map fst cb, List.map Z.of_nat (seq 0 (length cb))).

(** Modelled from the spec: the Calibration of section 3. *)
Record Calibration : Type := mkCalibration {
  max_val : Q;
  levels : list Q;
  indices : list Z;
  scale : Q
}.

(** Modelled from the spec: section 4.2, the Observer; [APoTObserver] is
    not among the source files.  Linear calibration, the largest level is
    mapped to [max_val], level [i] is [levels[i] * scale / levels[-1]].  A
    negative [max_val] fails with [InvalidCalibration]. *)
Definition calibrate (mx : Q) (b k : nat) (signed : bool)
  : result codec_error Calibration :=
  match generate_levels b k signed with
  | Err e => Err e
  | Ok (lv, ix) =>
      if Qle_bool 0 mx
      then
        let top := List.last lv 0 in
        Ok {| max_val := mx;
              levels := List.map (fun l => l * mx / top) lv;
              indices := ix;
              scale := mx |}
      else Err InvalidCalibration
  end.

(** Modelled from the spec: [calculate_qparams] returns [(scale,
    quantized_levels, level_indices)]. *)
Definition calculate_qparams (c : Calibration) : Q * list Q * list Z :=
  (scale c, levels c, indices c).

(** Modelled from the spec: [max(tensor)]; an empty tensor has none. *)
Fixpoint tensor_max (l : list Q) : option Q :=
  match l with
  | [] => None
  | x :: r =>
      match tensor_max r with
      | None => Some x
      | Some m => Some (if Qltb x m then m else x)
      end
  end.

(** Modelled from the spec: [max] of an integer tensor. *)
Fixpoint int_tensor_max (l : list Z) : option Z :=
  match l with
  | [] => None
  | x :: r =>
      match int_tensor_max r with
      | None => Some x
      | Some m => Some (Z.max x m)
      end
  end.

(** Modelled from the spec: nearest-level search of section 4.3, the
    position of the level minimising the absolute difference, the lower
    position on ties. *)
Fixpoint nearest_from (x : Q) (ls : list Q) (i best : nat) (bestd : Q) : nat :=
  match ls with
  | [] => best
  | l :: r =>
      let d := Qabs (l - x) in
      if Qltb d bestd then nearest_from x r (S i) i d
      else nearest_from x r (S i) best bestd
  end.

Definition nearest_pos (x : Q) (ls : list Q) : nat :=
  match ls with
  | [] => O
  | l :: r => nearest_from x r 1 0 (Qabs (l - x))
  end.

(** Modelled from the spec: section 4.3, quantize;
    [TensorAPoT.quantize_APoT] is not among the source files.  Calibration
    from the tensor's own maximum, then per element the index of the
    nearest level.  Out-of-domain values are clamped by the search itself;
    an empty tensor has no maximum and fails with [InvalidCalibration]. *)
Definition quantize (t : Tensor) (b k : nat) (signed : bool)
  : result codec_error IntTensor :=
  match tensor_max (tdata t) with
  | None => Err InvalidCalibration
  | Some mx =>
      match calibrate mx b k signed with
      | Err e => Err e
      | Ok c =>
          Ok {| ishape := tshape t;
                idata := List.map
                  (fun x => List.nth (nearest_pos x (levels c)) (indices c) 0%Z)
                  (tdata t) |}
      end
  end.

(** Modelled from the spec: the element lookup of dequantize, positional,
    [levels[e]], and [IndexOutOfRange] outside [0, 2^b). *)
Definition level_at (b : nat) (lv : list Q) (e : Z) : result codec_error Q :=
  if (0 <=? e)%Z && (e <? 2 ^ Z.of_nat b)%Z
  then Ok (List.nth (Z.to_nat e) lv 0)
  else Err IndexOutOfRange.

Fixpoint map_result {A B : Type} (f : A -> result codec_error B) (l : list A)
  : result codec_error (list B) :=
  match l with
  | [] => Ok []
  | a :: r =>
      match f a with
      | Err e => Err e
      | Ok y =>
          match map_result f r with
          | Err e => Err e
          | Ok ys => Ok (y :: ys)
          end
      end
  end.

(** Modelled from the spec: section 4.3, dequantize;
    [TensorAPoT.dequantize] is not among the source files.  Calibration for
    the maximum of the tensor, then [output[p] = levels[input[p]]]; an
    element outside [0, 2^b) fails with [IndexOutOfRange]. *)
Definition dequantize (t : IntTensor) (b k : nat) (signed : bool)
  : result codec_error Tensor :=
  match int_tensor_max (idata t) with
  | None => Err InvalidCalibration
  | Some mx =>
      match calibrate (inject_Z mx) b k signed with
      | Err e => Err e
      | Ok c =>
          match map_result (level_at b (levels c)) (idata t) with
          | Err e => Err e
          | Ok out => Ok {| tshape := ishape t; tdata := out |}
          end
      end
  end.

(** [list(level_indices).index(ele)] of the dequantize tests: the first
    position holding [e]. *)
Fixpoint index_of (e : Z) (l : list Z) : option nat :=
  match l with
  | [] => None
  | x :: r => if (x =? e)%Z then Some O else option_map S (index_of e r)
  end.

(** The oracle of [test_dequantize_APoT_ramd_1d/2d/3d]
    (test_quantized_tensor.py:90-107): from the observer's
    [calculate_qparams], the value expected for element [ele] is
    [quantized_levels[list(level_indices).index(ele)]]; [index] raises when
    the element is absent. *)
Definition expected_level (c : Calibration) (ele : Z) : option Q :=
  let '(_, quantized_levels, level_indices) := calculate_qparams c in
  option_map (fun idx => List.nth idx quantized_levels 0)
    (index_of ele level_indices).

End LevelGenerator.

(** Modelled from the spec: the table of the additive power-of-two
    construction for the unsigned codec, position [i] offering
    [0, 2^-i, 2^-(i+n), ..., 2^-(i+(2^k-2) n)].  The signed table is an
    open question of the specification; this table does not mirror. *)
Definition apot_term (signed : bool) (n i j : nat) : Q :=
  match j with
  | O => 0
  | S j' => 1 # Pos.of_nat (2 ^ (i + j' * n))
  end.

(** Modelled from the spec: the rounding of the reference uniform
    quantizer, round half to even. *)
Definition round_half_even (q : Q) : Z :=
  let f := Qfloor q in
  match Qcompare (q - inject_Z f) (1 # 2) with
  | Lt => f
  | Gt => (f + 1)%Z
  | Eq => if Z.even f then f else (f + 1)%Z
  end.

(** Modelled from the spec: the reference uniform quantizer of section 6,
    called by the quantize tests as [quantize_per_tensor(input, scale,
    zero_point, dtype=torch.quint8).int_repr()]
    (test_quantized_tensor.py:33, 61); [torch.quantize_per_tensor] is not
    among the source files.  Round to nearest, shift by the zero point,
    clamp to [0, 255]. *)
Definition quantize_per_tensor (input : list Q) (scale : Q) (zero_point : Z)
  : list Z :=
  List.map
    (fun x => Z.max 0 (Z.min 255 (round_half_even (x / scale) + zero_point)))
    input.

(** ** Order facts *)

Lemma Qltb_lt (x y : Q) : Qltb x y = true <-> x < y.
Proof.
  unfold Qltb. rewrite negb_true_iff. split.
  - intros H. apply Qnot_le_lt. intros Hle.
    apply Qle_bool_iff in Hle. congruence.
  - intros H. destruct (Qle_bool y x) eqn:E; [|reflexivity].
    apply Qle_bool_iff in E. lra.
Qed.

Lemma Qltb_ge (x y : Q) : Qltb x y = false <-> y <= x.
Proof.
  unfold Qltb. rewrite negb_false_iff. apply Qle_bool_iff.
Qed.

(** The order the codebook is sorted by, as a proposition. *)
Definition lex_le (p q : Q * nat) : Prop :=
  fst p < fst q \/ (fst p == fst q /\ (snd p <= snd q)%nat).

Lemma lex_leb_le (p q : Q * nat) : lex_leb p q = true <-> lex_le p q.
Proof.
  unfold lex_leb, lex_le.
  rewrite orb_true_iff, andb_true_iff, Qltb_lt, Qeq_bool_iff, Nat.leb_le.
  reflexivity.
Qed.

Lemma lex_le_total (p q : Q * nat) : lex_leb p q = false -> lex_le q p.
Proof.
  unfold lex_leb, lex_le. rewrite orb_false_iff, andb_false_iff.
  intros [Hlt Heq]. apply Qltb_ge in Hlt.
  destruct (Qeq_bool (fst p) (fst q)) eqn:E.
  - apply Qeq_bool_iff in E. destruct Heq as [Heq|Heq]; [discriminate|].
    apply Nat.leb_gt in Heq. right. split; [lra | lia].
  - apply Qeq_bool_neq in E. left. lra.
Qed.

Lemma lex_le_trans (p q r : Q * nat) : lex_le p q -> lex_le q r -> lex_le p r.
Proof.
  unfold lex_le. intros [H1|[H1 H1']] [H2|[H2 H2']].
  - left; lra.
  - left; lra.
  - left; lra.
  - right; split; [lra | lia].
Qed.

Lemma lex_le_fst (p q : Q * nat) : lex_le p q -> fst p <= fst q.
Proof. unfold lex_le. intros [H|[H _]]; lra. Qed.

(** ** Insertion sort *)

Lemma insert_level_perm (p : Q * nat) (l : list (Q * nat)) :
  Permutation (insert_level p l) (p :: l).
Proof.
  induction l as [|q r IH]; simpl.
  - apply Permutation_refl.
  - destruct (lex_leb p q).
    + apply Permutation_refl.
    + eapply Permutation_trans; [apply perm_skip, IH | apply perm_swap].
Qed.

Lemma sort_levels_perm (l : list (Q * nat)) : Permutation (sort_levels l) l.
Proof.
  induction l as [|p r IH]; simpl.
  - apply perm_nil.
  - eapply Permutation_trans; [apply insert_level_perm | apply perm_skip, IH].
Qed.

Lemma insert_level_sorted (p : Q * nat) (l : list (Q * nat)) :
  StronglySorted lex_le l -> StronglySorted lex_le (insert_level p l).
Proof.
  induction l as [|q r IH]; simpl; intros Hs.
  - constructor; [constructor | constructor].
  - inversion Hs as [|? ? Hr Hq]; subst.
    destruct (lex_leb p q) eqn:E.
    + apply lex_leb_le in E. constructor; [exact Hs|].
      constructor; [exact E|].
      eapply List.Forall_impl; [|exact Hq].
      intros a Ha. eapply lex_le_trans; eassumption.
    + apply lex_le_total in E. constructor; [apply IH, Hr|].
      eapply Permutation_Forall.
      * apply Permutation_sym, insert_level_perm.
      * constructor; assumption.
Qed.

Lemma sort_levels_sorted (l : list (Q * nat)) :
  StronglySorted lex_le (sort_levels l).
Proof.
  induction l as [|p r IH]; simpl.
  - constructor.
  - apply insert_level_sorted, IH.
Qed.

Lemma sorted_levels_nondecreasing (l : list (Q * nat)) :
  StronglySorted lex_le l -> StronglySorted Qle (List.map fst l).
Proof.
  induction 1 as [|p r Hr IH Hp]; simpl; constructor.
  - exact IH.
  - apply Forall_map. eapply List.Forall_impl; [|exact Hp].
    intros q Hq. apply lex_le_fst, Hq.
Qed.

(** ** Size of the codebook *)

Section Counting.

Variable term : bool -> nat -> nat -> nat -> Q.

Lemma cartesian_sums_length (choices : list (list Q)) (m : nat) :
  Forall (fun c => length c = m) choices ->
  length (cartesian_sums choices) = (m ^ length choices)%nat.
Proof.
  induction 1 as [|c rest Hc Hrest IH]; simpl.
  - reflexivity.
  - rewrite flat_map_constant_length with (c := (m ^ length rest)%nat).
    + rewrite Hc. reflexivity.
    + intros x _. rewrite length_map. exact IH.
Qed.

Lemma all_sums_length (signed : bool) (b k : nat) :
  (0 < k)%nat -> (b mod k = 0)%nat ->
  length (all_sums term signed b k) = (2 ^ b)%nat.
Proof.
  intros Hk Hdiv. unfold all_sums.
  rewrite (cartesian_sums_length _ (2 ^ k)%nat).
  - rewrite length_map, length_seq, <- Nat.pow_mul_r.
    f_equal. symmetry. apply Nat.Div0.div_exact. exact Hdiv.
  - apply List.Forall_forall. intros c Hc. apply in_map_iff in Hc.
    destruct Hc as [i [<- _]]. unfold position_terms.
    rewrite length_map, length_seq. reflexivity.
Qed.

Lemma tag_encodings_length (l : list Q) : length (tag_encodings l) = length l.
Proof.
  unfold tag_encodings. rewrite length_combine, length_seq. lia.
Qed.

Lemma sorted_codebook_length (signed : bool) (b k : nat) :
  (0 < k)%nat -> (b mod k = 0)%nat ->
  length (sorted_codebook term signed b k) = (2 ^ b)%nat.
Proof.
  intros Hk Hdiv. unfold sorted_codebook.
  rewrite (Permutation_length (sort_levels_perm _)), tag_encodings_length.
  apply all_sums_length; assumption.
Qed.

Lemma generate_levels_valid (b k : nat) (signed : bool) :
  (0 < b)%nat -> (0 < k)%nat -> (b mod k = 0)%nat ->
  generate_levels term b k signed =
  Ok (List.map fst (sorted_codebook term signed b k),
      List.map Z.of_nat (seq 0 (2 ^ b))).
Proof.
  intros Hb Hk Hdiv. unfold generate_levels.
  destruct (b =? 0)%nat eqn:E1; [apply Nat.eqb_eq in E1; lia|].
  destruct (k =? 0)%nat eqn:E2; [apply Nat.eqb_eq in E2; lia|].
  rewrite Hdiv. simpl.
  rewrite sorted_codebook_length by assumption. reflexivity.
Qed.

(** C5.  For a valid configuration [generate_levels] returns exactly [2^b]
    levels; they are the Cartesian sums rearranged (a permutation of the
    enumeration tagged with the index-encodings), in non-decreasing order
    with equal levels ordered by increasing index-encoding; and the
    IndexSet is [0, 1, ..., 2^b - 1], the rank of each sorted level. *)
Theorem generate_levels_sorted_dense (b k : nat) (signed : bool) :
  (0 < b)%nat -> (0 < k)%nat -> (b mod k = 0)%nat ->
  exists lv ix,
    generate_levels term b k signed = Ok (lv, ix) /\
    length lv = (2 ^ b)%nat /\
    StronglySorted Qle lv /\
    lv = List.map fst (sorted_codebook term signed b k) /\
    StronglySorted lex_le (sorted_codebook term signed b k) /\
    Permutation (sorted_codebook term signed b k)
      (tag_encodings (all_sums term signed b k)) /\
    length (all_sums term signed b k) = (2 ^ b)%nat /\
    ix = List.map Z.of_nat (seq 0 (2 ^ b)) /\
    (forall i, (i < 2 ^ b)%nat -> List.nth i ix 0%Z = Z.of_nat i).
Proof.
  intros Hb Hk Hdiv.
  exists (List.map fst (sorted_codebook term signed b k)),
         (List.map Z.of_nat (seq 0 (2 ^ b))).
  split; [apply generate_levels_valid; assumption|].
  split; [rewrite length_map; apply sorted_codebook_length; assumption|].
  split; [apply sorted_levels_nondecreasing, sort_levels_sorted|].
  split; [reflexivity|].
  split; [apply sort_levels_sorted|].
  split; [apply sort_levels_perm|].
  split; [apply all_sums_length; assumption|].
  split; [reflexivity|].
  intros i Hi.
  rewrite (nth_indep _ 0%Z (Z.of_nat 0)) by (rewrite length_map, length_seq; exact Hi).
  rewrite map_nth, seq_nth by exact Hi. reflexivity.
Qed.

(** ** Dequantization against the observer's tables *)

Lemma calibrate_valid (mx : Q) (b k : nat) (signed : bool) :
  (0 < b)%nat -> (0 < k)%nat -> (b mod k = 0)%nat -> 0 <= mx ->
  calibrate term mx b k signed =
  Ok {| max_val := mx;
        levels :=
          List.map
            (fun l => l * mx /
               List.last (List.map fst (sorted_codebook term signed b k)) 0)
            (List.map fst (sorted_codebook term signed b k));
        indices := List.map Z.of_nat (seq 0 (2 ^ b));
        scale := mx |}.
Proof.
  intros Hb Hk Hdiv Hmx. unfold calibrate.
  rewrite generate_levels_valid by assumption.
  apply Qle_bool_iff in Hmx. rewrite Hmx. reflexivity.
Qed.

Lemma index_of_seq (n s i : nat) :
  (i < n)%nat ->
  index_of (Z.of_nat (s + i)) (List.map Z.of_nat (seq s n)) = Some i.
Proof.
  revert s i. induction n as [|n IH]; intros s i Hi; [lia|].
  simpl. destruct i as [|i].
  - replace (s + 0)%nat with s by lia. rewrite Z.eqb_refl. reflexivity.
  - destruct (Z.eqb_spec (Z.of_nat s) (Z.of_nat (s + S i))) as [E|_]; [lia|].
    replace (s + S i)%nat with (S s + i)%nat by lia.
    rewrite IH by lia. reflexivity.
Qed.

Lemma index_of_dense (n : nat) (e : Z) :
  (0 <= e < Z.of_nat n)%Z ->
  index_of e (List.map Z.of_nat (seq 0 n)) = Some (Z.to_nat e).
Proof.
  intros He. rewrite <- (index_of_seq n 0 (Z.to_nat e)) by lia.
  f_equal. simpl. lia.
Qed.

Lemma int_tensor_max_in (l : list Z) :
  l <> [] -> exists mx, int_tensor_max l = Some mx /\ In mx l.
Proof.
  induction l as [|x r IH]; [congruence|]. intros _. simpl.
  destruct r as [|y r'].
  - exists x. simpl. auto.
  - destruct IH as [m [Hm Hin]]; [congruence|]. rewrite Hm.
    exists (Z.max x m). split; [reflexivity|].
    destruct (Z.max_spec x m) as [[_ ->]|[_ ->]]; [right; exact Hin | left; reflexivity].
Qed.

Lemma map_result_all_ok {A B : Type} (f : A -> result codec_error B)
  (g : A -> B) (l : list A) :
  (forall a, In a l -> f a = Ok (g a)) -> map_result f l = Ok (List.map g l).
Proof.
  induction l as [|a r IH]; intros H; simpl; [reflexivity|].
  rewrite (H a) by (left; reflexivity).
  rewrite IH by (intros a' Ha'; apply H; right; exact Ha').
  reflexivity.
Qed.

Lemma Forall2_oracle {A B : Type} (P : A -> option B) (g : A -> B)
  (l : list A) :
  (forall a, In a l -> P a = Some (g a)) ->
  Forall2 (fun a y => P a = Some y) l (List.map g l).
Proof.
  induction l as [|a r IH]; intros H; simpl; constructor.
  - apply H. left; reflexivity.
  - apply IH. intros a' Ha'. apply H. right; exact Ha'.
Qed.

Lemma pow2_nat_Z (b : nat) : Z.of_nat (2 ^ b) = (2 ^ Z.of_nat b)%Z.
Proof. rewrite Nat2Z.inj_pow. reflexivity. Qed.

(** C2.  For an integer tensor with elements in [0, 2^b), [dequantize]
    succeeds, keeps the shape, and at every position returns the entry of
    the observer's [quantized_levels] found at the place where
    [level_indices] holds the element, the observer being calibrated on the
    maximum of the input as the tests do. *)
Theorem dequantize_matches_observer (t : IntTensor) (b k : nat) (signed : bool) :
  (0 < b)%nat -> (0 < k)%nat -> (b mod k = 0)%nat ->
  idata t <> [] ->
  (forall e, In e (idata t) -> (0 <= e < 2 ^ Z.of_nat b)%Z) ->
  exists mx c out,
    int_tensor_max (idata t) = Some mx /\
    calibrate term (inject_Z mx) b k signed = Ok c /\
    dequantize term t b k signed = Ok out /\
    tshape out = ishape t /\
    Forall2 (fun ele res => expected_level c ele = Some res)
      (idata t) (tdata out).
Proof.
  intros Hb Hk Hdiv Hne Hrange.
  destruct (int_tensor_max_in (idata t) Hne) as [mx [Hmx Hin]].
  assert (Hpos : 0 <= inject_Z mx).
  { replace 0 with (inject_Z 0) by reflexivity. rewrite <- Zle_Qle.
    apply Hrange in Hin. lia. }
  pose proof (calibrate_valid (inject_Z mx) b k signed Hb Hk Hdiv Hpos) as Hc.
  set (c := {| max_val := inject_Z mx;
               levels := _; indices := _; scale := _ |}) in Hc.
  exists mx, c, {| tshape := ishape t;
                   tdata := List.map
                     (fun e => List.nth (Z.to_nat e) (levels c) 0) (idata t) |}.
  split; [exact Hmx|]. split; [exact Hc|].
  split.
  - unfold dequantize. rewrite Hmx, Hc.
    rewrite (map_result_all_ok _ (fun e => List.nth (Z.to_nat e) (levels c) 0)).
    + reflexivity.
    + intros e He. unfold level_at. apply Hrange in He.
      destruct (Z.leb_spec 0 e); [|lia].
      destruct (Z.ltb_spec e (2 ^ Z.of_nat b)); [|lia]. reflexivity.
  - split; [reflexivity|]. cbn [tdata].
    apply Forall2_oracle. intros e He. apply Hrange in He.
    unfold expected_level. cbn [calculate_qparams indices c].
    rewrite index_of_dense by (rewrite pow2_nat_Z; exact He).
    reflexivity.
Qed.

End Counting.

(** ** Nearest-level search *)

Lemma nearest_from_min (x : Q) (ls pre : list Q) (best : nat) (bestd : Q) :
  (best < length pre)%nat ->
  bestd == Qabs (List.nth best pre 0 - x) ->
  (forall j, (j < length pre)%nat -> bestd <= Qabs (List.nth j pre 0 - x)) ->
  (nearest_from x ls (length pre) best bestd < length (pre ++ ls))%nat /\
  forall j, (j < length (pre ++ ls))%nat ->
    Qabs (List.nth (nearest_from x ls (length pre) best bestd) (pre ++ ls) 0 - x)
    <= Qabs (List.nth j (pre ++ ls) 0 - x).
Proof.
  revert pre best bestd.
  induction ls as [|l r IH]; intros pre best bestd Hb Hd Hmin;
    cbn [nearest_from].
  - rewrite app_nil_r. split; [exact Hb|].
    intros j Hj. rewrite <- Hd. apply Hmin, Hj.
  - assert (Hlen : S (length pre) = length (pre ++ [l]))
      by (rewrite length_app; simpl; lia).
    assert (Happ : pre ++ l :: r = (pre ++ [l]) ++ r)
      by (rewrite <- app_assoc; reflexivity).
    assert (Hl : List.nth (length pre) (pre ++ [l]) 0 = l) by apply nth_middle.
    rewrite Hlen, Happ.
    destruct (Qltb (Qabs (l - x)) bestd) eqn:E.
    + apply Qltb_lt in E. apply IH.
      * rewrite <- Hlen. lia.
      * rewrite Hl. reflexivity.
      * intros j Hj. rewrite <- Hlen in Hj.
        destruct (Nat.eq_dec j (length pre)) as [->|Hne].
        -- rewrite Hl. lra.
        -- rewrite app_nth1 by lia.
           specialize (Hmin j ltac:(lia)). lra.
    + apply Qltb_ge in E. apply IH.
      * rewrite <- Hlen. lia.
      * rewrite app_nth1 by exact Hb. exact Hd.
      * intros j Hj. rewrite <- Hlen in Hj.
        destruct (Nat.eq_dec j (length pre)) as [->|Hne].
        -- rewrite Hl. exact E.
        -- rewrite app_nth1 by lia. apply Hmin. lia.
Qed.

Lemma nearest_pos_min (x : Q) (ls : list Q) :
  ls <> [] ->
  (nearest_pos x ls < length ls)%nat /\
  forall j, (j < length ls)%nat ->
    Qabs (List.nth (nearest_pos x ls) ls 0 - x) <= Qabs (List.nth j ls 0 - x).
Proof.
  destruct ls as [|l r]; [congruence|]. intros _.
  apply (nearest_from_min x r [l] 0 (Qabs (l - x))).
  - simpl. lia.
  - reflexivity.
  - intros j Hj. simpl in Hj. replace j with O by lia. cbn [List.nth]. lra.
Qed.

Lemma nearest_from_stay (x : Q) (ls : list Q) (i best : nat) (bestd : Q) :
  (forall l, In l ls -> bestd <= Qabs (l - x)) ->
  nearest_from x ls i best bestd = best.
Proof.
  revert i. induction ls as [|l r IH]; intros i H; cbn [nearest_from];
    [reflexivity|].
  assert (E : Qltb (Qabs (l - x)) bestd = false)
    by (apply Qltb_ge, H; left; reflexivity).
  rewrite E. apply IH. intros l' Hl'. apply H. right; exact Hl'.
Qed.

Lemma Qabs_le_zero (q : Q) : Qabs q <= 0 -> q == 0.
Proof.
  intros H. apply Qabs_Qle_condition in H. lra.
Qed.

(** ** The maximum of a tensor *)

Lemma tensor_max_spec (l : list Q) :
  l <> [] ->
  exists mx, tensor_max l = Some mx /\ In mx l /\ forall x, In x l -> x <= mx.
Proof.
  induction l as [|x r IH]; [congruence|]. intros _. simpl.
  destruct r as [|y r'].
  - exists x. simpl. split; [reflexivity|]. split; [auto|].
    intros z [<-|[]]. lra.
  - destruct IH as [m [Hm [Hin Hle]]]; [congruence|]. rewrite Hm.
    destruct (Qltb x m) eqn:E.
    + apply Qltb_lt in E. exists m. split; [reflexivity|].
      split; [right; exact Hin|].
      intros z [<-|Hz]; [lra | apply Hle, Hz].
    + apply Qltb_ge in E. exists x. split; [reflexivity|].
      split; [left; reflexivity|].
      intros z [<-|Hz]; [lra | specialize (Hle z Hz); lra].
Qed.

(** ** The uniform quantizer on the unit interval *)

Lemma Qfloor_unit (y : Q) : 0 <= y -> y < 1 -> Qfloor y = 0%Z.
Proof.
  intros H0 H1.
  pose proof (Qfloor_le y) as Hlo. pose proof (Qlt_floor y) as Hhi.
  assert (Qfloor y < 1)%Z.
  { rewrite Zlt_Qlt. replace (inject_Z 1) with 1 by reflexivity. lra. }
  assert (0 < Qfloor y + 1)%Z.
  { rewrite Zlt_Qlt. replace (inject_Z 0) with 0 by reflexivity. lra. }
  lia.
Qed.

Lemma uniform_unit_interval (x : Q) :
  0 <= x -> x < 1 ->
  let u := Z.max 0 (Z.min 255 (round_half_even (x / 1) + 0)) in
  (u = 0 \/ u = 1)%Z /\ (x == 0 -> u = 0%Z).
Proof.
  intros H0 H1. assert (Hy : x / 1 == x) by (field).
  unfold round_half_even.
  rewrite (Qfloor_comp _ _ Hy), (Qfloor_unit x H0 H1).
  rewrite (Qcompare_comp (x / 1 - inject_Z 0) x ltac:(rewrite Hy; unfold inject_Z; ring)
             (1 # 2) (1 # 2) ltac:(reflexivity)).
  destruct (Qcompare_spec x (1 # 2)) as [E|E|E]; simpl.
  - split; [left; reflexivity|]. intros Hz. reflexivity.
  - split; [left; reflexivity|]. intros Hz. reflexivity.
  - split; [right; reflexivity|]. intros Hz. lra.
Qed.

(** ** The codec against the uniform quantizer

    [TensorAPoT.quantize_APoT] is not among the source files; what follows
    describes the codec of the specification, not the code the tests
    run. *)

(** The largest level is positive and strictly above every other level. *)
Definition top_unique (lv : list Q) : bool :=
  Qltb 0 (List.last lv 0) &&
  forallb (fun l => Qltb l (List.last lv 0)) (removelast lv).

Lemma top_unique_last (lv : list Q) (j : nat) :
  top_unique lv = true -> (j < length lv)%nat ->
  List.nth j lv 0 == List.last lv 0 -> j = (length lv - 1)%nat.
Proof.
  intros Hu Hj Heq. unfold top_unique in Hu.
  apply andb_true_iff in Hu. destruct Hu as [_ Hu].
  destruct lv as [|l0 lr]; [simpl in Hj; lia|].
  assert (Hne : l0 :: lr <> []) by congruence.
  pose proof (app_removelast_last 0 Hne) as Hsplit.
  set (lv := l0 :: lr) in *.
  assert (Hlen : length lv = S (length (removelast lv))).
  { rewrite Hsplit at 1. rewrite length_app. simpl. lia. }
  destruct (Nat.lt_ge_cases j (length (removelast lv))) as [Hlt|Hge]; [|lia].
  exfalso. rewrite Hsplit in Heq at 1. rewrite app_nth1 in Heq by exact Hlt.
  rewrite forallb_forall in Hu.
  specialize (Hu (List.nth j (removelast lv) 0) (nth_In _ _ Hlt)).
  apply Qltb_lt in Hu. lra.
Qed.

Lemma nth_calibrated (lv : list Q) (mx top : Q) (j : nat) :
  (j < length lv)%nat ->
  List.nth j (List.map (fun l => l * mx / top) lv) 0 = List.nth j lv 0 * mx / top.
Proof.
  intros Hj.
  rewrite (nth_indep _ 0 ((fun l => l * mx / top) 0))
    by (rewrite length_map; exact Hj).
  apply (map_nth (fun l => l * mx / top)).
Qed.

(** Calibrated on a positive maximum, the search sends the maximum itself
    to the last position. *)
Lemma nearest_pos_of_max (lv : list Q) (mx : Q) :
  lv <> [] -> top_unique lv = true -> 0 < mx ->
  nearest_pos mx (List.map (fun l => l * mx / List.last lv 0) lv)
  = (length lv - 1)%nat.
Proof.
  intros Hne Hu Hmx.
  set (top := List.last lv 0). set (L := List.map _ lv).
  assert (Htop : 0 < top).
  { unfold top_unique in Hu. apply andb_true_iff in Hu.
    destruct Hu as [Hu _]. apply Qltb_lt in Hu. exact Hu. }
  assert (HL : L <> []) by (subst L; destruct lv; simpl; congruence).
  destruct (nearest_pos_min mx L HL) as [Hr Hmin].
  assert (HlenL : length L = length lv) by (subst L; apply length_map).
  assert (Hlast : (length lv - 1 < length lv)%nat)
    by (destruct lv; [congruence | simpl; lia]).
  specialize (Hmin (length lv - 1)%nat ltac:(lia)).
  subst L. rewrite !nth_calibrated in Hmin by lia.
  assert (Hnl : List.nth (length lv - 1) lv 0 = top).
  { subst top. pose proof (app_removelast_last 0 Hne) as Hsplit.
    rewrite Hsplit at 2.
    replace (length lv - 1)%nat with (length (removelast lv)).
    - apply nth_middle.
    - rewrite Hsplit at 2. rewrite length_app. simpl. lia. }
  rewrite Hnl in Hmin.
  assert (Hz : Qabs (top * mx / top - mx) == 0).
  { assert (E : top * mx / top - mx == 0) by (field; lra).
    rewrite E. reflexivity. }
  rewrite Hz in Hmin. apply Qabs_le_zero in Hmin.
  apply (top_unique_last lv _ Hu); [lia|].
  fold top.
  set (v := List.nth _ lv 0) in *.
  assert (E : v * mx / top - mx == (v - top) * (mx / top)) by (field; lra).
  rewrite E in Hmin.
  assert (Hq : 0 < mx / top) by (apply Qlt_shift_div_l; lra).
  apply Qmult_integral in Hmin. destruct Hmin as [Hmin|Hmin]; lra.
Qed.

(** Calibrated on a zero maximum, every level is zero and the search stays
    at position 0. *)
Lemma nearest_pos_all_zero (lv : list Q) (mx x : Q) :
  mx == 0 -> x == 0 ->
  nearest_pos x (List.map (fun l => l * mx / List.last lv 0) lv) = O.
Proof.
  intros Hmx Hx. set (top := List.last lv 0).
  destruct lv as [|l0 lr]; [reflexivity|].
  cbn [List.map nearest_pos]. apply nearest_from_stay.
  intros l _.
  assert (E : l0 * mx / top - x == 0)
    by (rewrite Hmx, Hx; unfold Qdiv; ring).
  rewrite E. apply Qabs_nonneg.
Qed.

Lemma nth_dense_index (n j : nat) :
  (j < n)%nat -> List.nth j (List.map Z.of_nat (seq 0 n)) 0%Z = Z.of_nat j.
Proof.
  intros Hj.
  rewrite (nth_indep _ 0%Z (Z.of_nat 0)) by (rewrite length_map, length_seq; exact Hj).
  rewrite map_nth, seq_nth by exact Hj. reflexivity.
Qed.

Lemma codec_uniform_iff_zero (lv : list Q) (data : list Q) (mx : Q) :
  top_unique lv = true -> (2 < length lv)%nat ->
  tensor_max data = Some mx ->
  (forall x, In x data -> 0 <= x /\ x < 1) ->
  (List.map
     (fun x =>
        List.nth (nearest_pos x (List.map (fun l => l * mx / List.last lv 0) lv))
          (List.map Z.of_nat (seq 0 (length lv))) 0%Z) data
   = quantize_per_tensor data 1 0
   <-> forall x, In x data -> x == 0) /\
  (0 < mx ->
   In (Z.of_nat (length lv - 1))
     (List.map
        (fun x =>
           List.nth (nearest_pos x (List.map (fun l => l * mx / List.last lv 0) lv))
             (List.map Z.of_nat (seq 0 (length lv))) 0%Z) data)).
Proof.
  intros Hu Hlen Hmax Hrange.
  assert (Hne : lv <> []) by (destruct lv; [simpl in Hlen; lia | congruence]).
  assert (Hdata : data <> []) by (destruct data; simpl in Hmax; congruence).
  destruct (tensor_max_spec data Hdata) as [m [Hm [Hin Hle]]].
  rewrite Hmax in Hm. injection Hm as <-.
  assert (Htopidx : 0 < mx ->
    List.nth (nearest_pos mx (List.map (fun l => l * mx / List.last lv 0) lv))
      (List.map Z.of_nat (seq 0 (length lv))) 0%Z = Z.of_nat (length lv - 1)).
  { intros Hpos. rewrite nearest_pos_of_max by assumption.
    apply nth_dense_index. lia. }
  split; [split|].
  - intros Heq. unfold quantize_per_tensor in Heq.
    rewrite map_ext_in_iff in Heq.
    destruct (Qlt_le_dec 0 mx) as [Hpos|Hnp].
    + exfalso. specialize (Heq mx Hin). cbv beta in Heq.
      rewrite (Htopidx Hpos) in Heq.
      destruct (Hrange mx Hin) as [H0 H1].
      destruct (uniform_unit_interval mx H0 H1) as [[Hu0|Hu1] _]; lia.
    + intros x Hx. specialize (Hle x Hx).
      destruct (Hrange x Hx) as [H0 _]. lra.
  - intros Hz. unfold quantize_per_tensor. apply map_ext_in.
    intros x Hx. destruct (Hrange x Hx) as [H0 H1].
    rewrite nearest_pos_all_zero by (apply Hz; assumption).
    destruct (uniform_unit_interval x H0 H1) as [_ Hu0].
    rewrite (Hu0 (Hz x Hx)). apply nth_dense_index. lia.
  - intros Hpos. apply in_map_iff. exists mx. split; [|exact Hin].
    apply Htopidx, Hpos.
Qed.

Lemma apot_codebook_4_2 :
  top_unique (List.map fst (sorted_codebook apot_term false 4 2)) = true.
Proof. vm_compute. reflexivity. Qed.

Lemma apot_codebook_6_2 :
  top_unique (List.map fst (sorted_codebook apot_term false 6 2)) = true.
Proof. vm_compute. reflexivity. Qed.

Lemma quantize_eval (t : Tensor) (b k : nat) (mx : Q) :
  (0 < b)%nat -> (0 < k)%nat -> (b mod k = 0)%nat ->
  tensor_max (tdata t) = Some mx -> 0 <= mx ->
  quantize apot_term t b k false =
  Ok {| ishape := tshape t;
        idata :=
          List.map
            (fun x =>
               List.nth
                 (nearest_pos x
                    (List.map
                       (fun l => l * mx /
                          List.last
                            (List.map fst (sorted_codebook apot_term false b k)) 0)
                       (List.map fst (sorted_codebook apot_term false b k))))
                 (List.map Z.of_nat (seq 0 (2 ^ b))) 0%Z)
            (tdata t) |}.
Proof.
  intros Hb Hk Hdiv Hmax Hpos. unfold quantize.
  rewrite Hmax, calibrate_valid by assumption. reflexivity.
Qed.

(** In this model the codec and the uniform quantizer part ways at once:
    on the one-element tensor [0.25] the codec at
    [b=4, k=2] calibrates its 16 levels on the maximum 0.25 and emits the
    top index 15, where the uniform quantizer with scale 1 and zero point 0
    rounds 0.25 to 0; likewise 63 against 0 at [b=6, k=2] on a 1x1
    tensor. *)
Lemma quantize_APoT_uniform_counterexample :
  (0 <= 1 # 4 /\ 1 # 4 < 1) /\
  quantize apot_term (mkTensor [1%nat] [1 # 4]) 4 2 false
    = Ok (mkIntTensor [1%nat] [15%Z]) /\
  quantize_per_tensor [1 # 4] 1 0 = [0%Z] /\
  quantize apot_term (mkTensor [1%nat; 1%nat] [1 # 4]) 6 2 false
    = Ok (mkIntTensor [1%nat; 1%nat] [63%Z]).
Proof.
  split; [split; [unfold Qle | unfold Qlt]; simpl; lia|].
  split; [vm_compute; reflexivity|].
  split; vm_compute; reflexivity.
Qed.

(** In this model, for a non-empty tensor with elements in [0,1), the codec
    at [b=4, k=2] and at [b=6, k=2] succeeds with an index tensor of the
    same shape, and its indices equal those of the uniform quantizer with
    scale 1 and zero point 0 exactly when every element is zero; when the
    maximum is positive it receives the top index [2^b - 1]. *)
Theorem quantize_APoT_uniform_iff_zero (t : Tensor) (b k : nat) :
  (b = 4%nat /\ k = 2%nat) \/ (b = 6%nat /\ k = 2%nat) ->
  tdata t <> [] ->
  (forall x, In x (tdata t) -> 0 <= x /\ x < 1) ->
  exists q mx,
    quantize apot_term t b k false = Ok q /\
    tensor_max (tdata t) = Some mx /\
    ishape q = tshape t /\
    (idata q = quantize_per_tensor (tdata t) 1 0
     <-> forall x, In x (tdata t) -> x == 0) /\
    (0 < mx -> In (Z.of_nat (2 ^ b - 1)) (idata q)).
Proof.
  intros Hcfg Hne Hrange.
  destruct (tensor_max_spec (tdata t) Hne) as [mx [Hmax [Hin _]]].
  assert (Hpos : 0 <= mx) by (apply (Hrange mx Hin)).
  assert (Hvalid : (0 < b)%nat /\ (0 < k)%nat /\ (b mod k = 0)%nat /\
                   top_unique (List.map fst (sorted_codebook apot_term false b k)) = true).
  { destruct Hcfg as [[-> ->]|[-> ->]].
    - split; [lia|]. split; [lia|]. split; [reflexivity|].
      apply apot_codebook_4_2.
    - split; [lia|]. split; [lia|]. split; [reflexivity|].
      apply apot_codebook_6_2. }
  destruct Hvalid as [Hb [Hk [Hdiv Hu]]].
  assert (Hlen : length (List.map fst (sorted_codebook apot_term false b k))
                 = (2 ^ b)%nat)
    by (rewrite length_map; apply sorted_codebook_length; assumption).
  assert (Hbig : (2 < 2 ^ b)%nat)
    by (destruct Hcfg as [[-> _]|[-> _]]; simpl; lia).
  eexists. exists mx.
  split; [apply (quantize_eval t b k mx); assumption|].
  split; [exact Hmax|]. split; [reflexivity|]. cbn [idata].
  pose proof (codec_uniform_iff_zero _ (tdata t) mx Hu
                ltac:(rewrite Hlen; exact Hbig) Hmax Hrange) as Hmain.
  rewrite Hlen in Hmain. exact Hmain.
Qed.

(** ** Concrete instances *)

Lemma generate_levels_sorted_dense_witness :
  exists lv ix,
    generate_levels apot_term 4 2 false = Ok (lv, ix) /\
    length lv = (2 ^ 4)%nat /\
    StronglySorted Qle lv /\
    lv = List.map fst (sorted_codebook apot_term false 4 2) /\
    StronglySorted lex_le (sorted_codebook apot_term false 4 2) /\
    Permutation (sorted_codebook apot_term false 4 2)
      (tag_encodings (all_sums apot_term false 4 2)) /\
    length (all_sums apot_term false 4 2) = (2 ^ 4)%nat /\
    ix = List.map Z.of_nat (seq 0 (2 ^ 4)) /\
    (forall i, (i < 2 ^ 4)%nat -> List.nth i ix 0%Z = Z.of_nat i).
Proof.
  apply (generate_levels_sorted_dense apot_term 4 2 false).
  - lia.
  - lia.
  - reflexivity.
Defined.

Lemma dequantize_matches_observer_witness :
  exists mx c out,
    int_tensor_max [1; 0; 15]%Z = Some mx /\
    calibrate apot_term (inject_Z mx) 4 2 false = Ok c /\
    dequantize apot_term (mkIntTensor [3%nat] [1; 0; 15]%Z) 4 2 false = Ok out /\
    tshape out = [3%nat] /\
    Forall2 (fun ele res => expected_level c ele = Some res)
      [1; 0; 15]%Z (tdata out).
Proof.
  apply (dequantize_matches_observer apot_term
           (mkIntTensor [3%nat] [1; 0; 15]%Z) 4 2 false).
  - lia.
  - lia.
  - reflexivity.
  - simpl. discriminate.
  - simpl. intros e [<-|[<-|[<-|[]]]]; lia.
Defined.

Lemma quantize_APoT_uniform_iff_zero_witness :
  exists q mx,
    quantize apot_term (mkTensor [2%nat] [1 # 4; 0]) 4 2 false = Ok q /\
    tensor_max [1 # 4; 0] = Some mx /\
    ishape q = [2%nat] /\
    (idata q = quantize_per_tensor [1 # 4; 0] 1 0
     <-> forall x, In x [1 # 4; 0] -> x == 0) /\
    (0 < mx -> In (Z.of_nat (2 ^ 4 - 1)) (idata q)).
Proof.
  apply (quantize_APoT_uniform_iff_zero (mkTensor [2%nat] [1 # 4; 0]) 4 2).
  - left. split; reflexivity.
  - simpl. discriminate.
  - simpl. intros x [<-|[<-|[]]]; split; [unfold Qle | unfold Qlt | unfold Qle | unfold Qlt]; simpl; lia.
Defined.

End APoT.

Module DataSparsifier.

(** The Python exceptions the class and the library under it raise. *)
Inductive exn : Type :=
| AssertionError
| ValueError
| RuntimeError
| TypeError
| KeyError
| AttributeError
| NotImplementedError.

(** ** Tensors and configuration values *)

(** A tensor: shape and flat storage.  The sparsifier never computes with
    the entries beyond the mask product, so they are integers. *)
Record tensor : Type := mkTensor { shape : list nat; values : list Z }.

Global Instance tensor_eq_dec : EqDecision tensor.
Proof. solve_decision. Defined.

(** [torch.ones_like(w)]. *)
Definition ones_like (w : tensor) : tensor :=
  {| shape := shape w; values := List.map (fun _ => 1%Z) (values w) |}.

(** Elementwise [mask * x] for tensors of one shape.  The product is the
    exact one of the integers: rounding and overflow of the library's
    dtypes are not modelled. *)
Definition tensor_mul (m x : tensor) : tensor :=
  {| shape := shape x; values := zip_with Z.mul (values m) (values x) |}.

(** A parametrization class: [utils.FakeSparsity] (library model), or a
    class the caller passes under the [parametrization] key. *)
Inductive param_class : Type :=
| FakeSparsity
| UserParam (cls : string).

Global Instance param_class_eq_dec : EqDecision param_class.
Proof. solve_decision. Defined.

(** An instance [param_class(mask)]. *)
Record parametrization : Type :=
  mkParametrization { p_class : param_class; p_mask : tensor }.

(** Values of a configuration dictionary ([**config], [defaults]) and of
    the per-name state dictionary: a tensor (the mask), a parametrization
    class, or any other plain value. *)
Inductive cfgval : Type :=
| VTensor (t : tensor)
| VParamClass (pc : param_class)
| VOther (z : Z).

Global Instance cfgval_eq_dec : EqDecision cfgval.
Proof. solve_decision. Defined.

(** What a caller may pass as [data]: the four [SUPPORTED_TYPES] (lines
    14-23), each carrying its weight, or an object of any other type. *)
Inductive data_obj : Type :=
| DTensor (t : tensor)
| DParameter (t : tensor)
| DEmbedding (weight : tensor)
| DEmbeddingBag (weight : tensor)
| DUnsupported.

(** [type(data) in SUPPORTED_TYPES]. *)
Definition supported (data : data_obj) : bool :=
  match data with
  | DUnsupported => false
  | _ => true
  end.

(** [_extract_weight] (lines 70-76); no branch is taken for another type
    and the method returns [None]. *)
Definition _extract_weight (data : data_obj) : option tensor :=
  match data with
  | DTensor t => Some t
  | DParameter t => Some t
  | DEmbedding w => Some w
  | DEmbeddingBag w => Some w
  | DUnsupported => None
  end.

(** ** State and error monad *)

Definition St (S A : Type) : Type := S -> result exn A * S.

Definition ret {S A : Type} (a : A) : St S A := fun s => (Ok a, s).

Definition bind {S A B : Type} (m : St S A) (k : A -> St S B) : St S B :=
  fun s =>
    match m s with
    | (Ok a, s') => k a s'
    | (Err e, s') => (Err e, s')
    end.

Definition raise {S A : Type} (e : exn) : St S A := fun s => (Err e, s).

Definition gets {S A : Type} (f : S -> A) : St S A := fun s => (Ok (f s), s).

Definition modify {S : Type} (f : S -> S) : St S unit := fun s => (Ok tt, f s).

Definition lift {S A : Type} (r : result exn A) : St S A := fun s => (r, s).

Notation "'let*' x ':=' m 'in' k" := (bind m (fun x => k))
  (at level 10, x name, m at level 100, k at level 200).

Fixpoint for_each {S A : Type} (f : A -> St S unit) (l : list A) : St S unit :=
  match l with
  | [] => ret tt
  | a :: r => let* _ := f a in for_each f r
  end.

(** ** The container: [nn.Module] with [torch.nn.utils.parametrize]

    [nn.Module], [nn.Parameter], [torch.nn.utils.parametrize] and
    [utils.FakeSparsity] are library code that is not among the source
    files.  The definitions of this part model the behaviour the methods of
    [BaseDataSparsifier] rely on: which names a module accepts, what
    registering and removing a parametrization does to the module, which
    exception each call raises, and the keys of [state_dict()].  Dictionary
    iteration order, warnings, dtypes and gradients are left out. *)

(** A [ParametrizationList]: the original tensor and the registered
    parametrizations, first registered first. *)
Record plist : Type :=
  mkPlist { original : tensor; mods : list parametrization }.

(** [_Container] (lines 26-28): the parameters registered directly, and
    the [parametrizations] module dictionary. *)
Record container : Type := mkContainer {
  params : gmap string tensor;
  parametrizations : gmap string plist
}.

Definition empty_container : container :=
  {| params := ∅; parametrizations := ∅ |}.

Fixpoint has_dot (s : string) : bool :=
  match s with
  | EmptyString => false
  | String a r => Ascii.eqb a "."%char || has_dot r
  end.

Section Model.

(** Library parts that are not among the source files, taken as
    parameters: the [forward] of a caller-supplied parametrization class,
    and the attribute names [nn.Module] already defines on a container
    (for which [hasattr] holds without any parameter being registered).
    The names its dictionary of parametrizations defines as attributes
    count among them: the library refuses to parametrize under such a
    name. *)
Variable user_forward : string -> tensor -> tensor -> tensor.
Variable module_attr : string -> bool.

(** Library model: [parametrization(x)].  [FakeSparsity.forward] asserts
    that mask and input have one shape and returns [mask * x]. *)
Definition forward (p : parametrization) (x : tensor) : result exn tensor :=
  match p_class p with
  | FakeSparsity =>
      if bool_decide (shape (p_mask p) = shape x)
      then Ok (tensor_mul (p_mask p) x)
      else Err AssertionError
  | UserParam cls => Ok (user_forward cls (p_mask p) x)
  end.

(** Library model: evaluation of a parametrized tensor, the
    parametrizations applied in order to the original. *)
Fixpoint apply_mods (ps : list parametrization) (x : tensor) : result exn tensor :=
  match ps with
  | [] => Ok x
  | p :: r =>
      match forward p x with
      | Ok y => apply_mods r y
      | Err e => Err e
      end
  end.

(** Library model: [parametrize.is_parametrized(module, name)]. *)
Definition is_parametrized (c : container) (name : string) : bool :=
  match parametrizations c !! name with
  | Some _ => true
  | None => false
  end.

(** Library model: [getattr(module, name)]. *)
Definition getattr (name : string) : St container tensor :=
  fun c =>
    match parametrizations c !! name with
    | Some pl => (apply_mods (mods pl) (original pl), c)
    | None =>
        match params c !! name with
        | Some t => (Ok t, c)
        | None => (Err AttributeError, c)
        end
    end.

(** Library model: names a container cannot register a parameter under,
    the attributes of [nn.Module] and the [parametrizations] dictionary
    itself (registering a parametrization under that name fails in
    [parametrize] after the dictionary has been overwritten; the model
    refuses the name at once).  In the library a bare [setattr] under the
    name [parametrizations] succeeds and replaces the dictionary; results
    about calls that succeed leave that name out. *)
Definition reserved (name : string) : bool :=
  String.eqb name "parametrizations" || module_attr name.

(** Library model: [setattr(module, name, nn.Parameter(t))], that is
    [Module.register_parameter]: [KeyError] for a name with a dot, for the
    empty name, and for a name that is an attribute without being a
    registered parameter (a parametrized name is one: its property is
    evaluated by [hasattr]). *)
Definition register_parameter (name : string) (t : tensor) : St container unit :=
  fun c =>
    if has_dot name then (Err KeyError, c)
    else if String.eqb name "" then (Err KeyError, c)
    else
      match parametrizations c !! name with
      | Some pl =>
          match apply_mods (mods pl) (original pl) with
          | Ok _ => (Err KeyError, c)
          | Err e => (Err e, c)
          end
      | None =>
          match params c !! name with
          | Some _ =>
              (Ok tt, {| params := <[name := t]> (params c);
                         parametrizations := parametrizations c |})
          | None =>
              if reserved name then (Err KeyError, c)
              else
                (Ok tt, {| params := <[name := t]> (params c);
                           parametrizations := parametrizations c |})
          end
      end.

(** Library model: [module.get_parameter(name).data = t] for a directly
    registered parameter; [AttributeError] when [name] is not one. *)
Definition set_parameter_data (name : string) (t : tensor) : St container unit :=
  fun c =>
    match params c !! name with
    | Some _ =>
        (Ok tt, {| params := <[name := t]> (params c);
                   parametrizations := parametrizations c |})
    | None => (Err AttributeError, c)
    end.

(** Library model: the consistency check of [register_parametrization]
    (not [unsafe]), the parametrization must run and keep the shape. *)
Definition check_parametrization (p : parametrization) (x : tensor)
  : result exn unit :=
  match forward p x with
  | Err e => Err e
  | Ok y => if bool_decide (shape y = shape x) then Ok tt else Err ValueError
  end.

(** Library model: [parametrize.register_parametrization(module, name,
    p)].  On a parametrized name the parametrization is appended; on a
    direct parameter the parameter becomes the original of a new list;
    [ValueError] when the module holds neither.  Nothing is changed when
    the check fails.  Tensors carry no dtype, so the library's dtype check
    is not modelled; and the original kept is the given tensor, as the
    library does for [FakeSparsity] and any class without
    [right_inverse]. *)
Definition register_parametrization (name : string) (p : parametrization)
  : St container unit :=
  fun c =>
    match parametrizations c !! name with
    | Some pl =>
        match apply_mods (mods pl) (original pl) with
        | Err e => (Err e, c)
        | Ok y =>
            match check_parametrization p y with
            | Err e => (Err e, c)
            | Ok _ =>
                (Ok tt,
                 {| params := params c;
                    parametrizations :=
                      <[name := {| original := original pl;
                                   mods := mods pl ++ [p] |}]>
                        (parametrizations c) |})
            end
        end
    | None =>
        match params c !! name with
        | Some orig =>
            match check_parametrization p orig with
            | Err e => (Err e, c)
            | Ok _ =>
                (Ok tt,
                 {| params := delete name (params c);
                    parametrizations :=
                      <[name := {| original := orig; mods := [p] |}]>
                        (parametrizations c) |})
            end
        | None => (Err ValueError, c)
        end
    end.

(** Library model: [parametrize.remove_parametrizations(module, name,
    leave_parametrized)].  [ValueError] when [name] is not parametrized;
    otherwise the name becomes a direct parameter again, holding the
    parametrized value or the original.  A parametrization over several
    tensors, which the library refuses to remove with
    [leave_parametrized=False], is not modelled. *)
Definition remove_parametrizations (name : string) (leave_parametrized : bool)
  : St container unit :=
  fun c =>
    match parametrizations c !! name with
    | None => (Err ValueError, c)
    | Some pl =>
        let restored :=
          if leave_parametrized then apply_mods (mods pl) (original pl)
          else Ok (original pl) in
        match restored with
        | Err e => (Err e, c)
        | Ok t =>
            (Ok tt,
             {| params := <[name := t]> (params c);
                parametrizations := delete name (parametrizations c) |})
        end
    end.

(** The key of a parametrized tensor in [module.state_dict()] (line 154). *)
Definition parametrized_name (name : string) : string :=
  "parametrizations." +:+ name +:+ ".original".

(** Library model: [module.state_dict()], the direct parameters under
    their names and the originals of the parametrized ones under
    [parametrized_name]; [FakeSparsity.state_dict] saves nothing. *)
Definition container_state_dict (c : container) : gmap string tensor :=
  params c ∪ kmap parametrized_name (original <$> parametrizations c).

(** Library model: [param_class(mask)] for the values found in a
    configuration; only a class can be called ([TypeError] otherwise), and
    the mask must be a tensor. *)
Definition instantiate (param_class mask : cfgval) : result exn parametrization :=
  match param_class, mask with
  | VParamClass pc, VTensor m => Ok {| p_class := pc; p_mask := m |}
  | _, _ => Err TypeError
  end.

(** ** [BaseDataSparsifier] *)

(** The instance: [defaults] and [state] of [BaseSparsifier], and
    [data_groups] and [_container] (lines 57-62). *)
Record sparsifier : Type := mkSparsifier {
  defaults : gmap string cfgval;
  state : gmap string (gmap string cfgval);
  data_groups : gmap string (gmap string cfgval);
  _container : container
}.

Definition on_container {A : Type} (m : St container A) : St sparsifier A :=
  fun s =>
    let '(r, c) := m (_container s) in
    (r, {| defaults := defaults s; state := state s;
           data_groups := data_groups s; _container := c |}).

Definition set_data_group (name : string) (cfg : gmap string cfgval)
  (s : sparsifier) : sparsifier :=
  {| defaults := defaults s; state := state s;
     data_groups := <[name := cfg]> (data_groups s);
     _container := _container s |}.

(** [self.state[name]['mask'] = mask] on the [defaultdict(dict)]. *)
Definition set_state_mask (name : string) (mask : cfgval)
  (s : sparsifier) : sparsifier :=
  {| defaults := defaults s;
     state := <[name := <["mask" := mask]> (default ∅ (state s !! name))]> (state s);
     data_groups := data_groups s;
     _container := _container s |}.

Definition set_container (c : container) (s : sparsifier) : sparsifier :=
  {| defaults := defaults s; state := state s;
     data_groups := data_groups s; _container := c |}.

(** [prepare] (lines 67-68). *)
Definition prepare : St sparsifier unit := raise NotImplementedError.

(** [squash_mask] (lines 236-247); without [names], every key of
    [data_groups]. *)
Definition squash_mask (names : option (list string)) (leave_parametrized : bool)
  : St sparsifier unit :=
  let* dg := gets data_groups in
  let names := default (map_to_list dg).*1 names in
  for_each
    (fun name => on_container (remove_parametrizations name leave_parametrized))
    names.

(** [add_data] (lines 78-106). *)
Definition add_data (name : string) (data : data_obj)
  (config : gmap string cfgval) : St sparsifier tensor :=
  if negb (supported data) then raise AssertionError
  else
    let* dflt := gets defaults in
    let local_args := config ∪ dflt in
    let* _ := modify (set_data_group name local_args) in
    match _extract_weight data with
    | None => raise TypeError
    | Some weight =>
        let mask := default (VTensor (ones_like weight)) (local_args !! "mask") in
        let param_class :=
          default (VParamClass FakeSparsity) (local_args !! "parametrization") in
        let param := weight in
        let* st := gets state in
        let* _ :=
          match st !! name with
          | Some _ =>
              let* c := gets _container in
              let* _ :=
                if is_parametrized c name
                then squash_mask (Some [name]) false
                else ret tt in
              on_container (set_parameter_data name weight)
          | None => on_container (register_parameter name param)
          end in
        let* p := lift (instantiate param_class mask) in
        let* _ := on_container (register_parametrization name p) in
        let* _ := modify (set_state_mask name mask) in
        on_container (getattr name)
    end.

(** [__init__] (lines 57-65): the base class leaves [defaults] and an
    empty [state]; every entry of [data_list] is added with the defaults. *)
Definition init (data_list : option (list (string * data_obj)))
  (dflt : gmap string cfgval) : result exn unit * sparsifier :=
  let s0 := {| defaults := dflt; state := ∅; data_groups := ∅;
               _container := empty_container |} in
  match data_list with
  | None => (Ok tt, s0)
  | Some l =>
      for_each (fun nd => let* _ := add_data nd.1 nd.2 dflt in ret tt) l s0
  end.

(** [get_data] (lines 108-124). *)
Definition get_data (name : string) (return_original : bool)
  : St sparsifier tensor :=
  let* dg := gets data_groups in
  match dg !! name with
  | None => raise ValueError
  | Some _ =>
      let* c := gets _container in
      if return_original then
        if negb (is_parametrized c name) then raise ValueError
        else
          match parametrizations c !! name with
          | Some pl => ret (original pl)
          | None => raise AttributeError
          end
      else on_container (getattr name)
  end.

(** [get_mask] (lines 231-234). *)
Definition get_mask (name : string) : St sparsifier cfgval :=
  let* st := gets state in
  match st !! name with
  | None => raise ValueError
  | Some d =>
      match d !! "mask" with
      | Some m => ret m
      | None => raise KeyError
      end
  end.

(** The dictionary [state_dict] returns (lines 136-140). *)
Record state_dict_t : Type := mkStateDict {
  sd_state : gmap string (gmap string cfgval);
  sd_data_groups : gmap string (gmap string cfgval);
  sd_container : gmap string tensor
}.

(** [state_dict] (lines 126-140). *)
Definition state_dict (s : sparsifier) : state_dict_t :=
  {| sd_state := state s;
     sd_data_groups := data_groups s;
     sd_container := container_state_dict (_container s) |}.

(** One iteration of the loop of [_load_container_from_state] (lines
    147-176).  Line 175 looks the class up in [data_groups], the dictionary
    of names, not in the configuration of [name]: it finds the
    configuration of a data called [parametrization], which cannot be
    called. *)
Definition load_entry (data_groups : gmap string (gmap string cfgval))
  (container_state_dict : gmap string tensor)
  (name : string) (state : gmap string cfgval) : St sparsifier unit :=
  match data_groups !! name with
  | None => raise RuntimeError
  | Some _ =>
      match container_state_dict !! name with
      | Some data => on_container (register_parameter name data)
      | None =>
          match container_state_dict !! parametrized_name name with
          | Some data =>
              let* _ := on_container (register_parameter name data) in
              let mask := default (VTensor (ones_like data)) (state !! "mask") in
              let* p :=
                lift (match data_groups !! "parametrization" with
                      | Some _ => Err TypeError
                      | None => instantiate (VParamClass FakeSparsity) mask
                      end) in
              on_container (register_parametrization name p)
          | None => raise RuntimeError
          end
      end
  end.

(** [_load_container_from_state] (lines 142-176). *)
Definition _load_container_from_state
  (states data_groups : gmap string (gmap string cfgval))
  (container_state_dict : gmap string tensor) : St sparsifier unit :=
  for_each (fun e => load_entry data_groups container_state_dict e.1 e.2)
    (map_to_list states).

(** The argument of [__setstate__]: [state] and [data_groups], and the
    container's state dictionary when the key [_container] is present. *)
Record pickled : Type := mkPickled {
  pk_state : gmap string (gmap string cfgval);
  pk_data_groups : gmap string (gmap string cfgval);
  pk_container : option (gmap string tensor)
}.

(** [__setstate__] (lines 202-208). *)
Definition __setstate__ (st : pickled) : St sparsifier unit :=
  let* _ :=
    match pk_container st with
    | Some container_dict =>
        let* _ := modify (set_container empty_container) in
        _load_container_from_state (pk_state st) (pk_data_groups st) container_dict
    | None => ret tt
    end in
  modify (fun s =>
            {| defaults := defaults s; state := pk_state st;
               data_groups := pk_data_groups st; _container := _container s |}).

(** [load_state_dict] (lines 178-200); [copy.deepcopy] is the identity on
    the immutable values of the model. *)
Definition load_state_dict (state_dict : state_dict_t) (strict : bool)
  : St sparsifier unit :=
  let states := sd_state state_dict in
  let data_groups_ := sd_data_groups state_dict in
  let container_state_dict := sd_container state_dict in
  let* _ := if strict then modify (set_container empty_container) else ret tt in
  let* _ := _load_container_from_state states data_groups_ container_state_dict in
  let* cur_state := gets state in
  let* cur_groups := gets data_groups in
  let states := if strict then states else cur_state ∪ states in
  let data_groups_ := if strict then data_groups_ else cur_groups ∪ data_groups_ in
  __setstate__ {| pk_state := states; pk_data_groups := data_groups_;
                  pk_container := None |}.

(** ** [step] and pickling *)

Section Step.

(** [update_mask] is abstract (lines 259-261): the subclass supplies it.
    [enable_mask_update] is an attribute of the base class. *)
Variable update_mask : string -> tensor -> gmap string cfgval -> St sparsifier unit.

(** [step] (lines 249-257).  [get_data(name)] is called with its default
    [return_original=True].  The loop runs over the entries [data_groups]
    has when [step] is called. *)
Definition step (enable_mask_update : bool) : St sparsifier unit :=
  if negb enable_mask_update then ret tt
  else
    let* dg := gets data_groups in
    for_each
      (fun e => let* data := get_data e.1 true in update_mask e.1 data e.2)
      (map_to_list dg).

End Step.

(** The dictionary of [__getstate__] (lines 210-216): the one
    [__setstate__] takes, with the key [defaults]. *)
Record getstate_t : Type := mkGetState {
  gs_defaults : gmap string cfgval;
  gs_rest : pickled
}.

(** [__getstate__] (lines 210-216). *)
Definition __getstate__ (s : sparsifier) : getstate_t :=
  {| gs_defaults := defaults s;
     gs_rest := {| pk_state := state s;
                   pk_data_groups := data_groups s;
                   pk_container := Some (container_state_dict (_container s)) |} |}.

(** [__setstate__] (lines 202-208) on a dictionary that has the key
    [defaults], as unpickling and [copy.deepcopy] call it:
    [self.__dict__.update(state)] writes this key as well. *)
Definition unpickle (g : getstate_t) : St sparsifier unit :=
  let* _ := __setstate__ (gs_rest g) in
  modify (fun s =>
            {| defaults := gs_defaults g; state := state s;
               data_groups := data_groups s; _container := _container s |}).

(** ** Well-formed instances *)

(** A name [register_parameter] accepts on a fresh container. *)
Definition valid_name (name : string) : bool :=
  negb (has_dot name) && negb (String.eqb name "") && negb (reserved name).

(** What [add_data] and [squash_mask] leave for a name of [state]: it is
    configured in [data_groups], and the container holds it either as a
    direct parameter (squashed) or under the single [FakeSparsity]
    parametrization whose mask is [state[name]['mask']]. *)
Definition entry_ok (s : sparsifier) (name : string)
  (st : gmap string cfgval) : bool :=
  bool_decide (is_Some (data_groups s !! name)) && valid_name name &&
  match parametrizations (_container s) !! name,
        params (_container s) !! name with
  | None, Some _ => true
  | Some pl, None =>
      match mods pl with
      | [p] =>
          bool_decide (p_class p = FakeSparsity) &&
          bool_decide (default (VTensor (ones_like (original pl))) (st !! "mask")
                       = VTensor (p_mask p)) &&
          bool_decide (shape (p_mask p) = shape (original pl))
      | _ => false
      end
  | _, _ => false
  end.

(** Every name of [state] is as [entry_ok] says, the container holds no
    other name, and no data is called [parametrization]. *)
Definition well_formed (s : sparsifier) : bool :=
  forallb (fun e => entry_ok s e.1 e.2) (map_to_list (state s)) &&
  bool_decide (dom (params (_container s)) ∪ dom (parametrizations (_container s))
               ⊆ dom (state s)) &&
  bool_decide (data_groups s !! "parametrization" = None).

(** The names the container holds, directly or parametrized. *)
Definition container_names (c : container) : gset string :=
  dom (params c) ∪ dom (parametrizations c).

Ltac unfold_monad :=
  repeat (progress (unfold bind, ret, raise, gets, modify, lift, on_container in *;
                    cbn in *)).

(** ** [get_data] *)

Lemma get_data_frame (s : sparsifier) (name : string) (ro : bool) :
  (get_data name ro s).2 = s.
Proof.
  destruct s as [d st dg c].
  unfold get_data, bind, gets, raise, ret, on_container, getattr, is_parametrized.
  cbn. destruct (dg !! name); [|reflexivity]. destruct ro; cbn.
  - destruct (parametrizations c !! name); reflexivity.
  - destruct (parametrizations c !! name); [reflexivity|].
    destruct (params c !! name); reflexivity.
Qed.

Lemma remove_parametrizations_unparametrized (name : string) (leave : bool)
  (c c' : container) :
  remove_parametrizations name leave c = (Ok tt, c') ->
  is_parametrized c' name = false.
Proof.
  unfold remove_parametrizations, is_parametrized. intros H.
  destruct (parametrizations c !! name) as [pl|]; [|discriminate].
  destruct leave.
  - destruct (apply_mods (mods pl) (original pl)); [|discriminate].
    injection H as <-. simpl. rewrite lookup_delete_eq. reflexivity.
  - injection H as <-. simpl. rewrite lookup_delete_eq. reflexivity.
Qed.

(** After [squash_mask(names=[name])] the name is no longer
    parametrized. *)
Lemma squash_mask_unparametrized (name : string) (leave : bool)
  (s s' : sparsifier) :
  squash_mask (Some [name]) leave s = (Ok tt, s') ->
  is_parametrized (_container s') name = false /\
  data_groups s' = data_groups s /\ state s' = state s.
Proof.
  unfold squash_mask, for_each. unfold_monad.
  destruct (remove_parametrizations name leave (_container s)) as [[[]|e] c'] eqn:E;
    [|discriminate].
  intros H. injection H as <-. cbn.
  split; [eapply remove_parametrizations_unparametrized, E|]. split; reflexivity.
Qed.

(** C8.  [get_data(name, return_original)] raises [ValueError] when [name]
    is not a key of [data_groups], and when [return_original] is true and
    the container holds no parametrization for [name] (it was squashed); in
    both cases the sparsifier is left as it was. *)
Theorem get_data_value_error (s : sparsifier) (name : string) (ro : bool) :
  data_groups s !! name = None \/
  (ro = true /\ is_parametrized (_container s) name = false) ->
  get_data name ro s = (Err ValueError, s).
Proof.
  intros H. unfold get_data, bind, gets, raise. simpl.
  destruct (data_groups s !! name) as [cfg|] eqn:E; [|reflexivity].
  destruct H as [H|[-> H]]; [discriminate|].
  rewrite H. reflexivity.
Qed.


#[local] Arguments register_parameter : simpl never.
#[local] Arguments set_parameter_data : simpl never.
#[local] Arguments register_parametrization : simpl never.
#[local] Arguments remove_parametrizations : simpl never.
#[local] Arguments getattr : simpl never.
#[local] Arguments instantiate : simpl never.

Lemma register_parameter_ok (name : string) (t : tensor) (c c' : container)
  (u : unit) :
  register_parameter name t c = (Ok u, c') ->
  parametrizations c !! name = None /\
  c' = {| params := <[name := t]> (params c);
          parametrizations := parametrizations c |} /\
  has_dot name = false /\ String.eqb name "" = false /\
  (params c !! name = None -> reserved name = false).
Proof.
  unfold register_parameter. intros H.
  destruct (has_dot name); [discriminate|].
  destruct (String.eqb name ""); [discriminate|].
  destruct (parametrizations c !! name) as [pl|].
  - destruct (apply_mods (mods pl) (original pl)); discriminate.
  - split; [reflexivity|].
    destruct (params c !! name).
    + injection H as _ <-. repeat split. discriminate.
    + destruct (reserved name); [discriminate|]. injection H as _ <-.
      repeat split.
Qed.

Lemma set_parameter_data_ok (name : string) (t : tensor) (c c' : container)
  (u : unit) :
  set_parameter_data name t c = (Ok u, c') ->
  is_Some (params c !! name) /\
  c' = {| params := <[name := t]> (params c);
          parametrizations := parametrizations c |}.
Proof.
  unfold set_parameter_data. intros H.
  destruct (params c !! name); [|discriminate].
  injection H as _ <-. split; [eauto | reflexivity].
Qed.

Lemma remove_parametrizations_ok (name : string) (c c' : container) (u : unit) :
  remove_parametrizations name false c = (Ok u, c') ->
  exists pl, parametrizations c !! name = Some pl /\
  c' = {| params := <[name := original pl]> (params c);
          parametrizations := delete name (parametrizations c) |}.
Proof.
  unfold remove_parametrizations. intros H.
  destruct (parametrizations c !! name) as [pl|]; [|discriminate].
  injection H as _ <-. exists pl. split; reflexivity.
Qed.

Lemma register_parametrization_fresh (name : string) (p : parametrization)
  (c c' : container) (u : unit) :
  parametrizations c !! name = None ->
  register_parametrization name p c = (Ok u, c') ->
  exists orig, params c !! name = Some orig /\
    check_parametrization p orig = Ok tt /\
    c' = {| params := delete name (params c);
            parametrizations :=
              <[name := {| original := orig; mods := [p] |}]> (parametrizations c) |}.
Proof.
  unfold register_parametrization. intros -> H.
  destruct (params c !! name) as [orig|]; [|discriminate].
  destruct (check_parametrization p orig) as [[]|e] eqn:E; [|discriminate].
  injection H as _ <-. exists orig. split; [reflexivity|]. split; [exact E | reflexivity].
Qed.

Lemma check_parametrization_ok (p : parametrization) (x : tensor) :
  check_parametrization p x = Ok tt ->
  exists y, forward p x = Ok y /\ shape y = shape x.
Proof.
  unfold check_parametrization. intros H.
  destruct (forward p x) as [y|]; [|discriminate].
  case_bool_decide; [|discriminate]. exists y. split; [reflexivity | assumption].
Qed.

Lemma bind_ok {S A B : Type} (m : St S A) (k : A -> St S B) (s s' : S) (r : B) :
  bind m k s = (Ok r, s') ->
  exists a s1, m s = (Ok a, s1) /\ k a s1 = (Ok r, s').
Proof.
  unfold bind. destruct (m s) as [[a|e] s1]; [eauto | discriminate].
Qed.

Lemma on_container_inv {A : Type} (m : St container A) (s s' : sparsifier)
  (r : result exn A) :
  on_container m s = (r, s') ->
  exists c', m (_container s) = (r, c') /\ s' = set_container c' s.
Proof.
  unfold on_container. destruct (m (_container s)) as [r' c'].
  intros H. injection H as <- <-. exists c'. split; reflexivity.
Qed.

Ltac step H :=
  let a := fresh "a" in
  let s1 := fresh "s" in
  let H1 := fresh "Hs" in
  apply bind_ok in H as (a & s1 & H1 & H).

Lemma add_data_success (s s' : sparsifier) (name : string) (data : data_obj)
  (config : gmap string cfgval) (r : tensor) :
  add_data name data config s = (Ok r, s') ->
  exists weight m p,
    _extract_weight data = Some weight /\
    default (VTensor (ones_like weight)) ((config ∪ defaults s) !! "mask") = VTensor m /\
    instantiate (default (VParamClass FakeSparsity)
                   ((config ∪ defaults s) !! "parametrization")) (VTensor m) = Ok p /\
    forward p weight = Ok r /\
    (is_Some (state s !! name) -> name ∈ container_names (_container s)) /\
    (state s !! name = None ->
       has_dot name = false /\ String.eqb name "" = false /\
       (params (_container s) !! name = None -> reserved name = false)) /\
    s' = {| defaults := defaults s;
            state := <[name := <["mask" := VTensor m]> (default ∅ (state s !! name))]> (state s);
            data_groups := <[name := config ∪ defaults s]> (data_groups s);
            _container :=
              {| params := delete name (params (_container s));
                 parametrizations :=
                   <[name := {| original := weight; mods := [p] |}]>
                     (parametrizations (_container s)) |} |}.
Proof.
  intros H. unfold add_data in H.
  destruct (supported data); [|discriminate]. cbn [negb] in H.
  step H. unfold gets in Hs. simplify_eq.
  step H. unfold modify in Hs. simplify_eq.
  destruct (_extract_weight data) as [weight|]; [|discriminate].
  step H. unfold gets in Hs. simplify_eq.
  step H. rename s0 into s2, Hs into Hcont.
  step H. unfold lift in Hs. simplify_eq. rename a0 into p, H0 into Hinst.
  step H. apply on_container_inv in Hs as (c3 & Hreg & ->).
  step H. unfold modify in Hs. simplify_eq.
  apply on_container_inv in H as (c4 & Hget & ->).
  assert (Hmask : exists m, default (VTensor (ones_like weight))
                    ((config ∪ defaults s2) !! "mask") = VTensor m).
  { unfold instantiate in Hinst.
    destruct (default (VParamClass FakeSparsity) _); try discriminate.
    destruct (default (VTensor (ones_like weight)) _); try discriminate. eauto. }
  destruct Hmask as [m Hm]. rewrite Hm in *.
  assert (Hc2 : exists c2,
    s0 = set_container c2 (set_data_group name (config ∪ defaults s2) s2) /\
    parametrizations c2 !! name = None /\
    params c2 !! name = Some weight /\
    delete name (params c2) = delete name (params (_container s2)) /\
    (forall v, <[name := v]> (parametrizations c2)
               = <[name := v]> (parametrizations (_container s2))) /\
    (is_Some (state s2 !! name) -> name ∈ container_names (_container s2)) /\
    (state s2 !! name = None ->
       has_dot name = false /\ String.eqb name "" = false /\
       (params (_container s2) !! name = None -> reserved name = false))).
  { unfold container_names. destruct (state s2 !! name) as [dold|].
    - step Hcont. unfold gets in Hs. simplify_eq.
      step Hcont. apply on_container_inv in Hcont as (c2 & Hset & ->).
      apply set_parameter_data_ok in Hset as [Hhas ->].
      unfold is_parametrized in Hs. cbn in Hs.
      destruct (parametrizations (_container s2) !! name) as [pl|] eqn:ER.
      + unfold squash_mask, for_each in Hs.
        step Hs. unfold gets in Hs0. simplify_eq.
        step Hs. apply on_container_inv in Hs0 as (c1 & Hrem & ->).
        unfold ret in Hs. simplify_eq.
        apply remove_parametrizations_ok in Hrem as (pl' & _ & ->).
        eexists. split; [reflexivity|]. cbn.
        rewrite lookup_delete_eq, lookup_insert_eq, insert_insert_eq, delete_insert_eq.
        split; [reflexivity|]. split; [reflexivity|]. split; [reflexivity|].
        split; [intros v; apply insert_delete_eq|].
        split; [|discriminate].
        intros _. apply elem_of_union_r, elem_of_dom. rewrite ER. eauto.
      + unfold ret in Hs. simplify_eq.
        eexists. split; [reflexivity|]. cbn.
        rewrite lookup_insert_eq, delete_insert_eq.
        split; [exact ER|]. split; [reflexivity|]. split; [reflexivity|].
        split; [reflexivity|]. split; [|discriminate].
        intros _. apply elem_of_union_l, elem_of_dom. exact Hhas.
    - apply on_container_inv in Hcont as (c2 & Hset & ->).
      apply register_parameter_ok in Hset as (Hnone & -> & Hvalid).
      eexists. split; [reflexivity|]. cbn.
      rewrite lookup_insert_eq, delete_insert_eq.
      split; [exact Hnone|]. split; [reflexivity|]. split; [reflexivity|].
      split; [reflexivity|]. split; [intros [? ?]; discriminate|].
      intros _. exact Hvalid. }
  destruct Hc2 as (c2 & -> & Hnp & Hp & Hdel & Hins & Hin & Hval).
  cbn in Hreg.
  apply (register_parametrization_fresh _ _ _ _ _ Hnp) in Hreg
    as (orig & Horig & Hcheck & ->).
  rewrite Hp in Horig. injection Horig as <-.
  apply check_parametrization_ok in Hcheck as (y & Hy & _).
  unfold getattr in Hget. cbn in Hget.
  rewrite lookup_insert_eq in Hget. cbn in Hget. rewrite Hy in Hget.
  injection Hget as <- <-.
  exists weight, m, p. split; [reflexivity|]. split; [exact Hm|].
  split; [exact Hinst|]. split; [exact Hy|]. split; [exact Hin|].
  split; [exact Hval|].
  unfold set_container, set_state_mask, set_data_group. cbn.
  rewrite Hdel, Hins. reflexivity.
Qed.

(** C9.  After a successful [add_data(name, data, **config)]: [name] is a
    key of [data_groups]; [state[name]] has a [mask] entry; the container
    holds [name] as a parametrized parameter whose original is the weight
    of [data], under exactly one parametrization, and no longer as a direct
    parameter.  When [name] was already in [state], the keys of [state] and
    the names of the container are those of before: the weight is
    overwritten and the earlier parametrization squashed, no second entry
    is made.  Every other name is left as it was. *)
Theorem add_data_invariant (s s' : sparsifier) (name : string)
  (data : data_obj) (config : gmap string cfgval) (r : tensor) :
  add_data name data config s = (Ok r, s') ->
  name ∈ dom (data_groups s') /\
  (exists d m, state s' !! name = Some d /\ d !! "mask" = Some (VTensor m)) /\
  is_parametrized (_container s') name = true /\
  (exists weight p,
     _extract_weight data = Some weight /\
     parametrizations (_container s') !! name
       = Some {| original := weight; mods := [p] |} /\
     params (_container s') !! name = None) /\
  container_names (_container s') = {[name]} ∪ container_names (_container s) /\
  (is_Some (state s !! name) ->
     dom (state s') = dom (state s) /\
     container_names (_container s') = container_names (_container s)) /\
  (forall n, n <> name ->
     state s' !! n = state s !! n /\
     data_groups s' !! n = data_groups s !! n /\
     params (_container s') !! n = params (_container s) !! n /\
     parametrizations (_container s') !! n
       = parametrizations (_container s) !! n).
Proof.
  intros H.
  apply add_data_success in H
    as (weight & m & p & Hw & _ & _ & _ & Hin & _ & ->).
  cbn.
  assert (Hnames :
    container_names
      {| params := delete name (params (_container s));
         parametrizations :=
           <[name := {| original := weight; mods := [p] |}]>
             (parametrizations (_container s)) |}
    = {[name]} ∪ container_names (_container s)).
  { unfold container_names. cbn. rewrite dom_delete_L, dom_insert_L.
    apply set_eq. intros x. destruct (decide (x = name)); set_solver. }
  split; [rewrite dom_insert_L; set_solver|].
  split.
  { eexists _, m. rewrite !lookup_insert_eq. split; reflexivity. }
  split; [unfold is_parametrized; cbn; rewrite lookup_insert_eq; reflexivity|].
  split.
  { exists weight, p. split; [exact Hw|].
    rewrite lookup_insert_eq, lookup_delete_eq. split; reflexivity. }
  split; [exact Hnames|].
  split.
  { intros Hs. split.
    - rewrite dom_insert_L. apply elem_of_dom in Hs. set_solver.
    - rewrite Hnames. specialize (Hin Hs). set_solver. }
  intros n Hn.
  rewrite !lookup_insert_ne, lookup_delete_ne by congruence.
  repeat split; reflexivity.
Qed.

(** ** Keys of the container's state dictionary *)

Lemma string_length_app (s1 s2 : string) :
  String.length (s1 +:+ s2) = (String.length s1 + String.length s2)%nat.
Proof.
  induction s1 as [|a s1 IH]; simpl; [reflexivity|]. rewrite IH. reflexivity.
Qed.

Lemma string_app_inv_tail (s1 s2 t : string) :
  s1 +:+ t = s2 +:+ t -> s1 = s2.
Proof.
  revert s2. induction s1 as [|a s1 IH]; intros [|b s2] H.
  - reflexivity.
  - apply (f_equal String.length) in H.
    rewrite !string_length_app in H. simpl in H. lia.
  - apply (f_equal String.length) in H.
    rewrite !string_length_app in H. simpl in H. lia.
  - simpl in H. injection H as -> H. f_equal. apply IH, H.
Qed.

Global Instance parametrized_name_inj : Inj (=) (=) parametrized_name.
Proof.
  intros n1 n2 H. unfold parametrized_name in H.
  simpl in H. simplify_eq. eapply string_app_inv_tail. eassumption.
Qed.

Lemma parametrized_name_has_dot (name : string) :
  has_dot (parametrized_name name) = true.
Proof. reflexivity. Qed.

Lemma container_state_dict_plain (c : container) (name : string) :
  has_dot name = false ->
  container_state_dict c !! name = params c !! name.
Proof.
  intros Hdot. unfold container_state_dict. apply lookup_union_l.
  apply lookup_kmap_None; [apply _|]. intros i ->.
  rewrite parametrized_name_has_dot in Hdot. discriminate.
Qed.

Lemma container_state_dict_original (c : container) (name : string) :
  params c !! parametrized_name name = None ->
  container_state_dict c !! parametrized_name name
  = original <$> parametrizations c !! name.
Proof.
  intros Hnone. unfold container_state_dict.
  rewrite lookup_union_r by exact Hnone.
  rewrite lookup_kmap by apply _. apply lookup_fmap.
Qed.

(** ** Loading a state dictionary *)

Lemma entry_ok_inv (s : sparsifier) (n : string) (st : gmap string cfgval) :
  entry_ok s n st = true ->
  is_Some (data_groups s !! n) /\
  has_dot n = false /\ String.eqb n "" = false /\ reserved n = false /\
  ((parametrizations (_container s) !! n = None /\
    exists t, params (_container s) !! n = Some t) \/
   (params (_container s) !! n = None /\
    exists orig m,
      parametrizations (_container s) !! n
        = Some {| original := orig;
                  mods := [{| p_class := FakeSparsity; p_mask := m |}] |} /\
      default (VTensor (ones_like orig)) (st !! "mask") = VTensor m /\
      shape m = shape orig)).
Proof.
  unfold entry_ok, valid_name. intros H.
  apply andb_true_iff in H as [H Hmatch].
  apply andb_true_iff in H as [Hdg H].
  apply andb_true_iff in H as [H Hres].
  apply andb_true_iff in H as [Hdot Hne].
  apply bool_decide_eq_true in Hdg.
  apply negb_true_iff in Hdot, Hne, Hres.
  repeat (split; [assumption|]).
  destruct (parametrizations (_container s) !! n) as [[orig ps]|];
    destruct (params (_container s) !! n) as [t|]; try discriminate.
  - right. split; [reflexivity|].
    cbn in Hmatch. destruct ps as [|[pc m] [|? ?]]; try discriminate.
    apply andb_true_iff in Hmatch as [Hmatch Hshape].
    apply andb_true_iff in Hmatch as [Hcls Hmask].
    apply bool_decide_eq_true in Hshape, Hcls, Hmask. cbn in *. subst pc.
    exists orig, m. repeat split; assumption.
  - left. split; [reflexivity | eauto].
Qed.

Lemma well_formed_spec (s : sparsifier) :
  well_formed s = true ->
  (forall n st, state s !! n = Some st -> entry_ok s n st = true) /\
  (forall n, n ∈ container_names (_container s) -> is_Some (state s !! n)) /\
  data_groups s !! "parametrization" = None.
Proof.
  unfold well_formed. intros H.
  apply andb_true_iff in H as [H Hdg]. apply andb_true_iff in H as [Hall Hsub].
  apply bool_decide_eq_true in Hdg, Hsub.
  split; [|split; [|exact Hdg]].
  - intros n st Hn. rewrite forallb_forall in Hall.
    apply (Hall (n, st)). apply list_elem_of_In, elem_of_map_to_list, Hn.
  - intros n Hn. apply elem_of_dom. apply Hsub, Hn.
Qed.

Lemma sparsifier_eta (x : sparsifier) :
  {| defaults := defaults x; state := state x;
     data_groups := data_groups x; _container := _container x |} = x.
Proof. destruct x. reflexivity. Qed.

Lemma container_ext (c1 c2 : container) :
  (forall n, params c1 !! n = params c2 !! n) ->
  (forall n, parametrizations c1 !! n = parametrizations c2 !! n) ->
  c1 = c2.
Proof.
  destruct c1 as [p1 q1], c2 as [p2 q2]. cbn. intros Hp Hq.
  f_equal; apply map_eq; assumption.
Qed.

Section RoundTrip.

Variable s : sparsifier.
Hypothesis Hwf : well_formed s = true.

Lemma params_no_dot (n : string) :
  is_Some (params (_container s) !! n) -> has_dot n = false.
Proof.
  intros Hn. destruct (well_formed_spec s Hwf) as (Hent & Hsub & _).
  destruct (Hsub n) as [st Hst].
  { unfold container_names. apply elem_of_union_l, elem_of_dom, Hn. }
  apply Hent, entry_ok_inv in Hst. tauto.
Qed.

(** One iteration of the loop puts back what the saved container held
    under the name and touches no other name. *)
Lemma load_entry_restores (n : string) (st : gmap string cfgval)
  (sx : sparsifier) :
  state s !! n = Some st ->
  parametrizations (_container sx) !! n = None ->
  params (_container sx) !! n = None ->
  exists c',
    load_entry (data_groups s) (container_state_dict (_container s)) n st sx
      = (Ok tt, set_container c' sx) /\
    params c' !! n = params (_container s) !! n /\
    parametrizations c' !! n = parametrizations (_container s) !! n /\
    forall n', n' <> n ->
      params c' !! n' = params (_container sx) !! n' /\
      parametrizations c' !! n' = parametrizations (_container sx) !! n'.
Proof.
  intros Hst Hxp Hxq.
  destruct (well_formed_spec s Hwf) as (Hent & Hsub & Hdg).
  destruct (entry_ok_inv s n st (Hent n st Hst))
    as ([cfg Hcfg] & Hdot & Hne & Hres & Hcase).
  unfold load_entry. rewrite Hcfg.
  rewrite (container_state_dict_plain _ _ Hdot).
  assert (Hreg : forall t,
    register_parameter n t (_container sx)
    = (Ok tt, {| params := <[n := t]> (params (_container sx));
                 parametrizations := parametrizations (_container sx) |})).
  { intros t. unfold register_parameter.
    rewrite Hdot, Hne, Hxp, Hxq, Hres. reflexivity. }
  destruct Hcase as [[Hq [t Ht]]|[Hp (orig & m & Hq & Hmask & Hshape)]].
  - rewrite Ht. unfold on_container. rewrite Hreg.
    eexists. split; [reflexivity|]. cbn [params parametrizations].
    rewrite lookup_insert_eq, Hq, Hxp.
    split; [reflexivity|]. split; [reflexivity|]. intros n' Hn'.
    rewrite lookup_insert_ne by congruence. split; reflexivity.
  - rewrite Hp.
    rewrite container_state_dict_original.
    2:{ destruct (params (_container s) !! parametrized_name n) eqn:E;
          [|reflexivity].
        assert (Hd : has_dot (parametrized_name n) = false)
          by (apply params_no_dot; rewrite E; eauto).
        rewrite parametrized_name_has_dot in Hd. discriminate. }
    rewrite Hq. cbn [fmap option_fmap option_map original].
    unfold bind, on_container, lift. rewrite Hreg. cbn.
    rewrite Hdg, Hmask. unfold instantiate. cbn.
    unfold register_parametrization. cbn.
    rewrite Hxp, lookup_insert_eq.
    unfold check_parametrization, forward. cbn.
    rewrite bool_decide_eq_true_2 by exact Hshape. cbn.
    rewrite bool_decide_eq_true_2 by reflexivity.
    eexists. split; [reflexivity|]. cbn [params parametrizations].
    rewrite lookup_delete_eq, lookup_insert_eq.
    split; [reflexivity|]. split; [reflexivity|]. intros n' Hn'.
    rewrite lookup_delete_ne, !lookup_insert_ne by congruence.
    split; reflexivity.
Qed.

(** The loop, started on a container that agrees with the saved one on the
    names [D] already done and holds nothing else, ends on one that agrees
    with it on [D] and on the names of the entries. *)
Lemma load_entries_restore (entries : list (string * gmap string cfgval)) :
  forall (sx : sparsifier) (D : string -> Prop),
  NoDup entries.*1 ->
  (forall n st, (n, st) ∈ entries -> state s !! n = Some st) ->
  (forall n, n ∈ entries.*1 -> ~ D n) ->
  (forall n, D n ->
     params (_container sx) !! n = params (_container s) !! n /\
     parametrizations (_container sx) !! n
       = parametrizations (_container s) !! n) ->
  (forall n, ~ D n ->
     params (_container sx) !! n = None /\
     parametrizations (_container sx) !! n = None) ->
  exists c1,
    for_each
      (fun e => load_entry (data_groups s)
                  (container_state_dict (_container s)) e.1 e.2)
      entries sx
    = (Ok tt, set_container c1 sx) /\
    (forall n, D n \/ n ∈ entries.*1 ->
       params c1 !! n = params (_container s) !! n /\
       parametrizations c1 !! n = parametrizations (_container s) !! n) /\
    (forall n, ~ (D n \/ n ∈ entries.*1) ->
       params c1 !! n = None /\ parametrizations c1 !! n = None).
Proof.
  induction entries as [|[n st] r IH]; intros sx D Hnd Hin Hfresh Hdone Hrest.
  - exists (_container sx). cbn. unfold ret, set_container.
    rewrite sparsifier_eta. split; [reflexivity|]. split.
    + intros n [Hn|Hn]; [apply Hdone, Hn | inversion Hn].
    + intros n Hn. apply Hrest. tauto.
  - cbn [fmap list_fmap] in Hnd, Hfresh |- *. cbn [fst] in Hnd, Hfresh |- *.
    apply NoDup_cons in Hnd as [Hnr Hnd].
    assert (HnD : ~ D n) by (apply Hfresh; left).
    destruct (Hrest n HnD) as [Hxq Hxp].
    destruct (load_entry_restores n st sx
                (Hin n st ltac:(left)) Hxp Hxq)
      as (c' & Hload & Hcp & Hcq & Hframe).
    destruct (IH (set_container c' sx) (fun x => D x \/ x = n) Hnd)
      as (c1 & Hloop & Hyes & Hno).
    + intros n' st' Hn'. apply Hin. right. exact Hn'.
    + intros n' Hn' [HD| ->]; [|contradiction].
      apply (Hfresh n'); [right; exact Hn' | exact HD].
    + cbn [set_container _container]. intros n' [HD| ->].
      * assert (n' <> n) by (intros ->; contradiction).
        destruct (Hframe n' ltac:(assumption)) as [-> ->]. apply Hdone, HD.
      * split; assumption.
    + cbn [set_container _container]. intros n' Hn'.
      assert (n' <> n) by tauto.
      destruct (Hframe n' ltac:(assumption)) as [-> ->]. apply Hrest. tauto.
    + exists c1. split.
      * cbn [for_each]. unfold bind. cbn [fst snd]. rewrite Hload.
        rewrite Hloop. reflexivity.
      * split.
        -- intros n' Hn'. apply Hyes.
           destruct Hn' as [HD|Hn']; [tauto|].
           apply elem_of_cons in Hn' as [->|Hn']; tauto.
        -- intros n' Hn'. apply Hno. intros [[HD| ->]|Hr]; apply Hn'.
           ++ left; exact HD.
           ++ right; left.
           ++ right; right; exact Hr.
Qed.

End RoundTrip.

(** C10, amended.  For a well-formed sparsifier (every name of [state] is
    configured in [data_groups] and held by the container, as a direct
    parameter or under the single [FakeSparsity] parametrization whose mask
    is [state[name]['mask']]; the container holds no other name; no data is
    called [parametrization]), loading its own [state_dict()] with
    [strict=True] succeeds and gives back the very same instance: [state],
    [data_groups] and the container with its parameters and
    parametrizations are those of before. *)
Theorem load_own_state_dict (s : sparsifier) :
  well_formed s = true ->
  load_state_dict (state_dict s) true s = (Ok tt, s).
Proof.
  intros Hwf.
  destruct (well_formed_spec s Hwf) as (Hent & Hsub & Hdg).
  destruct (load_entries_restore s Hwf (map_to_list (state s))
              (set_container empty_container s) (fun _ => False))
    as (c1 & Hloop & Hyes & Hno).
  - apply NoDup_fst_map_to_list.
  - intros n st Hn. apply elem_of_map_to_list, Hn.
  - tauto.
  - tauto.
  - intros n _. cbn. rewrite !lookup_empty. split; reflexivity.
  - assert (Hc : c1 = _container s).
    { assert (Hcase : forall n,
        params c1 !! n = params (_container s) !! n /\
        parametrizations c1 !! n = parametrizations (_container s) !! n).
      { intros n. destruct (state s !! n) as [st|] eqn:Est.
        - apply Hyes. right. apply list_elem_of_fmap.
          exists (n, st). split; [reflexivity|].
          apply elem_of_map_to_list, Est.
        - destruct (Hno n) as [-> ->].
          + intros [[]|Hn]. apply list_elem_of_fmap in Hn as [[n' st'] [-> Hn]].
            apply elem_of_map_to_list in Hn. cbn [fst] in Est. congruence.
          + split; symmetry; apply eq_None_not_Some; intros Hsome.
            * destruct (Hsub n) as [st Hst]; [|congruence].
              unfold container_names. apply elem_of_union_l, elem_of_dom, Hsome.
            * destruct (Hsub n) as [st Hst]; [|congruence].
              unfold container_names. apply elem_of_union_r, elem_of_dom, Hsome. }
      apply container_ext; intros n; apply Hcase. }
    unfold load_state_dict, _load_container_from_state, __setstate__.
    cbn [state_dict sd_state sd_data_groups sd_container pk_state
         pk_data_groups pk_container].
    unfold bind at 1. unfold modify at 1.
    unfold bind at 1. rewrite Hloop.
    unfold bind, gets, ret, modify, set_container. cbn.
    rewrite Hc. rewrite sparsifier_eta. reflexivity.
Qed.

(** ** Well-formedness under the methods

    An instance built without data is well-formed; a successful
    [add_data] under a name other than [parametrization], with no class
    configured, and a successful [squash_mask] keep it so.  An [add_data]
    that raises, or one under the name [parametrization], does not. *)

Lemma well_formed_intro (s : sparsifier) :
  (forall n st, state s !! n = Some st -> entry_ok s n st = true) ->
  (forall n, n ∈ container_names (_container s) -> is_Some (state s !! n)) ->
  data_groups s !! "parametrization" = None ->
  well_formed s = true.
Proof.
  intros Hent Hsub Hdg. unfold well_formed.
  apply andb_true_iff. split; [apply andb_true_iff; split|].
  - apply forallb_forall. intros [n st] Hin. cbn.
    apply Hent. apply elem_of_map_to_list, list_elem_of_In, Hin.
  - apply bool_decide_eq_true_2. intros n Hn.
    apply elem_of_dom, Hsub, Hn.
  - apply bool_decide_eq_true_2, Hdg.
Qed.

Lemma entry_ok_ext (s s' : sparsifier) (n : string) (st : gmap string cfgval) :
  data_groups s' !! n = data_groups s !! n ->
  params (_container s') !! n = params (_container s) !! n ->
  parametrizations (_container s') !! n = parametrizations (_container s) !! n ->
  entry_ok s' n st = entry_ok s n st.
Proof.
  unfold entry_ok. intros -> -> ->. reflexivity.
Qed.

Lemma fresh_well_formed (dflt : gmap string cfgval) :
  well_formed (init None dflt).2 = true.
Proof.
  apply well_formed_intro; cbn.
  - intros n st Hn. rewrite lookup_empty in Hn. discriminate.
  - intros n Hn. unfold container_names in Hn. cbn in Hn. set_solver.
  - apply lookup_empty.
Qed.

(** A successful [add_data] under a name other than [parametrization], with
    no [parametrization] class configured, keeps the instance
    well-formed. *)
Lemma add_data_well_formed (s s' : sparsifier) (name : string)
  (data : data_obj) (config : gmap string cfgval) (r : tensor) :
  well_formed s = true ->
  name <> "parametrization" ->
  (config ∪ defaults s) !! "parametrization" = None ->
  add_data name data config s = (Ok r, s') ->
  well_formed s' = true.
Proof.
  intros Hwf Hname Hnopc H.
  destruct (well_formed_spec s Hwf) as (Hent & Hsub & Hdg).
  apply add_data_success in H
    as (weight & m & p & Hw & Hm & Hinst & Hfwd & Hin & Hval & ->).
  rewrite Hnopc in Hinst. unfold instantiate in Hinst. cbn in Hinst.
  injection Hinst as <-.
  unfold forward in Hfwd. cbn in Hfwd.
  case_bool_decide as Hshape; [|discriminate].
  assert (Hvalid : valid_name name = true).
  { unfold valid_name. destruct (state s !! name) as [st|] eqn:Est.
    - destruct (entry_ok_inv s name st (Hent name st Est))
        as (_ & -> & -> & -> & _). reflexivity.
    - destruct (Hval eq_refl) as (-> & -> & Hres). rewrite Hres; [reflexivity|].
      apply eq_None_not_Some. intros Hsome.
      destruct (Hsub name) as [st Hst]; [|congruence].
      unfold container_names. apply elem_of_union_l, elem_of_dom, Hsome. }
  apply well_formed_intro; cbn.
  - intros n st Hn. destruct (decide (n = name)) as [->|Hne].
    + rewrite lookup_insert_eq in Hn. injection Hn as <-.
      unfold entry_ok. cbn.
      rewrite !lookup_insert_eq, lookup_delete_eq, Hvalid. cbn.
      rewrite !bool_decide_eq_true_2; eauto.
    + rewrite lookup_insert_ne in Hn by congruence.
      rewrite <- (Hent n st Hn). apply entry_ok_ext; cbn.
      * rewrite lookup_insert_ne by congruence. reflexivity.
      * rewrite lookup_delete_ne by congruence. reflexivity.
      * rewrite lookup_insert_ne by congruence. reflexivity.
  - intros n Hn. destruct (decide (n = name)) as [->|Hne].
    + rewrite lookup_insert_eq. eauto.
    + rewrite lookup_insert_ne by congruence. apply Hsub.
      unfold container_names in *. cbn in Hn.
      rewrite dom_delete_L, dom_insert_L in Hn. set_solver.
  - rewrite lookup_insert_ne by congruence. exact Hdg.
Qed.

Lemma remove_parametrizations_inv (name : string) (leave : bool)
  (c c' : container) (u : unit) :
  remove_parametrizations name leave c = (Ok u, c') ->
  exists pl t, parametrizations c !! name = Some pl /\
  c' = {| params := <[name := t]> (params c);
          parametrizations := delete name (parametrizations c) |}.
Proof.
  unfold remove_parametrizations. intros H.
  destruct (parametrizations c !! name) as [pl|]; [|discriminate].
  destruct leave.
  - destruct (apply_mods (mods pl) (original pl)) as [t|]; [|discriminate].
    injection H as _ <-. exists pl, t. split; reflexivity.
  - injection H as _ <-. exists pl, (original pl). split; reflexivity.
Qed.

Lemma squash_each_well_formed (names : list string) (leave : bool) :
  forall (s s' : sparsifier) (u : unit),
  well_formed s = true ->
  for_each (fun name => on_container (remove_parametrizations name leave))
    names s = (Ok u, s') ->
  well_formed s' = true.
Proof.
  induction names as [|n r IH]; intros s s' u Hwf H; cbn [for_each] in H.
  - unfold ret in H. simplify_eq. exact Hwf.
  - step H. apply (IH s0 s' u); [|exact H]. clear IH H.
    apply on_container_inv in Hs as (c' & Hrem & ->).
    apply remove_parametrizations_inv in Hrem as (pl & t & Hpl & ->).
    destruct (well_formed_spec s Hwf) as (Hent & Hsub & Hdg).
    destruct (Hsub n) as [stn Hstn].
    { unfold container_names. apply elem_of_union_r, elem_of_dom. eauto. }
    apply well_formed_intro; cbn.
    + intros n' st Hn'. destruct (decide (n' = n)) as [->|Hne].
      * destruct (entry_ok_inv s n st (Hent n st Hn'))
          as (Hg & Hdot & Hnon & Hres & _).
        unfold entry_ok, valid_name. cbn.
        rewrite lookup_delete_eq, lookup_insert_eq, Hdot, Hnon, Hres.
        rewrite bool_decide_eq_true_2 by exact Hg. reflexivity.
      * rewrite <- (Hent n' st Hn'). apply entry_ok_ext; cbn.
        -- reflexivity.
        -- rewrite lookup_insert_ne by congruence. reflexivity.
        -- rewrite lookup_delete_ne by congruence. reflexivity.
    + intros n' Hn'. destruct (decide (n' = n)) as [->|Hne]; [eauto|].
      apply Hsub. unfold container_names in *. cbn in Hn'.
      rewrite dom_delete_L, dom_insert_L in Hn'. set_solver.
    + exact Hdg.
Qed.

(** X15.  A successful [squash_mask], on any list of names and with either
    value of [leave_parametrized], keeps the instance well-formed. *)
Lemma squash_mask_well_formed (names : option (list string)) (leave : bool)
  (s s' : sparsifier) (u : unit) :
  well_formed s = true ->
  squash_mask names leave s = (Ok u, s') ->
  well_formed s' = true.
Proof.
  unfold squash_mask. intros Hwf H.
  unfold bind, gets in H. eapply squash_each_well_formed; eassumption.
Qed.

(** ** What a successful [add_data] makes readable *)

Lemma bind_inv {S A B : Type} (m : St S A) (k : A -> St S B) (s s' : S)
  (r : result exn B) :
  bind m k s = (r, s') ->
  (exists e, m s = (Err e, s') /\ r = Err e) \/
  (exists a s1, m s = (Ok a, s1) /\ k a s1 = (r, s')).
Proof.
  unfold bind. destruct (m s) as [[a|e] s1]; intros H.
  - right. eauto.
  - left. injection H as <- <-. eauto.
Qed.

Lemma ones_mask_neutral (w : tensor) : tensor_mul (ones_like w) w = w.
Proof.
  destruct w as [sh vs]. unfold tensor_mul, ones_like. cbn. f_equal.
  induction vs as [|v vs IH]; cbn; [reflexivity|].
  rewrite IH. f_equal. destruct v; reflexivity.
Qed.

Lemma get_data_original_eval (s : sparsifier) (name : string) (pl : plist) :
  is_Some (data_groups s !! name) ->
  parametrizations (_container s) !! name = Some pl ->
  get_data name true s = (Ok (original pl), s).
Proof.
  intros [cfg Hcfg] Hpl.
  unfold get_data, bind, gets, ret, is_parametrized. cbn.
  rewrite Hcfg. cbn. rewrite Hpl. reflexivity.
Qed.

Lemma get_data_sparsified_eval (s : sparsifier) (name : string) :
  is_Some (data_groups s !! name) ->
  get_data name false s = ((getattr name (_container s)).1, s).
Proof.
  intros [cfg Hcfg].
  unfold get_data, bind, gets, on_container. cbn. rewrite Hcfg. cbn.
  unfold getattr.
  destruct (parametrizations (_container s) !! name);
    [|destruct (params (_container s) !! name)];
    cbn; rewrite sparsifier_eta; reflexivity.
Qed.

(** X1.  After a successful [add_data(name, data, **config)],
    [get_mask(name)] returns the mask the call used: the [mask] entry of
    the configuration merged over the defaults, or a tensor of ones shaped
    like the weight when there is none. *)
Theorem add_data_then_get_mask (s s' : sparsifier) (name : string)
  (data : data_obj) (config : gmap string cfgval) (r : tensor) :
  add_data name data config s = (Ok r, s') ->
  exists weight,
    _extract_weight data = Some weight /\
    get_mask name s'
    = (Ok (default (VTensor (ones_like weight))
             ((config ∪ defaults s) !! "mask")), s').
Proof.
  intros H.
  apply add_data_success in H
    as (weight & m & p & Hw & Hm & _ & _ & _ & _ & ->).
  exists weight. split; [exact Hw|].
  unfold get_mask, bind, gets, ret. cbn.
  rewrite lookup_insert_eq. cbn. rewrite lookup_insert_eq, Hm. reflexivity.
Qed.

(** X2.  After a successful [add_data(name, data, **config)] with no
    [parametrization] class configured (the sparsifier then uses
    [FakeSparsity]), [get_data(name, return_original=True)] returns the
    weight of [data], and [get_data(name, return_original=False)] returns
    the tensor the call itself returned; when no [mask] is configured
    either, that tensor is the weight. *)
Theorem add_data_then_get_data (s s' : sparsifier) (name : string)
  (data : data_obj) (config : gmap string cfgval) (r : tensor) :
  (config ∪ defaults s) !! "parametrization" = None ->
  add_data name data config s = (Ok r, s') ->
  exists weight,
    _extract_weight data = Some weight /\
    get_data name true s' = (Ok weight, s') /\
    get_data name false s' = (Ok r, s') /\
    ((config ∪ defaults s) !! "mask" = None -> r = weight).
Proof.
  intros Hnopc H.
  apply add_data_success in H
    as (weight & m & p & Hw & Hm & Hinst & Hfwd & _ & _ & ->).
  rewrite Hnopc in Hinst. unfold instantiate in Hinst. cbn in Hinst.
  injection Hinst as <-.
  exists weight. split; [exact Hw|].
  split; [|split].
  - apply (get_data_original_eval _ _
             {| original := weight;
                mods := [{| p_class := FakeSparsity; p_mask := m |}] |});
      cbn.
    + rewrite lookup_insert_eq. eauto.
    + apply lookup_insert_eq.
  - rewrite get_data_sparsified_eval by (cbn; rewrite lookup_insert_eq; eauto).
    unfold getattr. cbn. rewrite lookup_insert_eq. cbn.
    unfold forward in Hfwd |- *. cbn in Hfwd |- *. rewrite Hfwd.
    reflexivity.
  - intros Hnomask. rewrite Hnomask in Hm. cbn in Hm.
    injection Hm as <-.
    unfold forward in Hfwd. cbn in Hfwd.
    rewrite bool_decide_eq_true_2 in Hfwd by reflexivity.
    injection Hfwd as <-. apply ones_mask_neutral.
Qed.

(** ** Squashing *)

Lemma squash_one_eval (s : sparsifier) (name : string) (leave : bool) :
  squash_mask (Some [name]) leave s
  = (match (remove_parametrizations name leave (_container s)).1 with
     | Ok _ => Ok tt
     | Err e => Err e
     end,
     set_container (remove_parametrizations name leave (_container s)).2 s).
Proof.
  unfold squash_mask, for_each, bind, gets, ret, on_container, set_container.
  cbn. destruct (remove_parametrizations name leave (_container s))
    as [[[]|e] c']; reflexivity.
Qed.

Lemma squash_one_inv (s s' : sparsifier) (name : string) (leave : bool)
  (u : unit) :
  squash_mask (Some [name]) leave s = (Ok u, s') ->
  exists c',
    remove_parametrizations name leave (_container s) = (Ok tt, c') /\
    s' = set_container c' s.
Proof.
  unfold squash_mask, for_each, bind, gets, ret, on_container, set_container.
  cbn. destruct (remove_parametrizations name leave (_container s))
    as [[[]|e] c'] eqn:E; [|discriminate].
  intros H. injection H as _ <-. exists c'. split; reflexivity.
Qed.

(** X3.  After a successful [squash_mask(names=[name],
    leave_parametrized=leave)], [get_data(name, return_original=False)]
    returns what the data was before: the sparsified tensor when the
    parametrization is left in, the original tensor when it is not. *)
Theorem squash_mask_keeps_value (s s' : sparsifier) (name : string)
  (leave : bool) (u : unit) :
  is_Some (data_groups s !! name) ->
  squash_mask (Some [name]) leave s = (Ok u, s') ->
  exists t,
    get_data name (negb leave) s = (Ok t, s) /\
    get_data name false s' = (Ok t, s').
Proof.
  intros [cfg Hcfg] H.
  apply squash_one_inv in H as (c' & Hrem & ->).
  unfold remove_parametrizations in Hrem.
  destruct (parametrizations (_container s) !! name) as [pl|] eqn:Epl;
    [|discriminate].
  destruct leave; cbn [negb].
  - destruct (apply_mods (mods pl) (original pl)) as [t|] eqn:Et;
      [|discriminate].
    injection Hrem as <-. exists t. split.
    + rewrite get_data_sparsified_eval by eauto.
      unfold getattr. rewrite Epl. cbn. rewrite Et. reflexivity.
    + rewrite get_data_sparsified_eval by (cbn; eauto).
      unfold getattr. cbn. rewrite lookup_delete_eq, lookup_insert_eq.
      reflexivity.
  - injection Hrem as <-. exists (original pl). split.
    + apply get_data_original_eval; eauto.
    + rewrite get_data_sparsified_eval by (cbn; eauto).
      unfold getattr. cbn. rewrite lookup_delete_eq, lookup_insert_eq.
      reflexivity.
Qed.

Lemma squash_each_unparametrized (names : list string) (leave : bool) :
  forall (s s' : sparsifier) (u : unit),
  for_each (fun name => on_container (remove_parametrizations name leave))
    names s = (Ok u, s') ->
  data_groups s' = data_groups s /\
  forall n, n ∈ names \/ parametrizations (_container s) !! n = None ->
    parametrizations (_container s') !! n = None.
Proof.
  induction names as [|n r IH]; intros s s' u H; cbn [for_each] in H.
  - unfold ret in H. injection H as _ <-. split; [reflexivity|].
    intros n [Hn|Hn]; [inversion Hn | exact Hn].
  - apply bind_inv in H as [(e & _ & He)|(u1 & s1 & H1 & H)]; [discriminate|].
    apply on_container_inv in H1 as (c1 & Hrem & ->).
    apply remove_parametrizations_inv in Hrem as (pl & t & Hpl & ->).
    apply IH in H as [Hdg Hall]. cbn in Hdg, Hall.
    split; [exact Hdg|]. intros n' Hn'. apply Hall.
    destruct (decide (n' = n)) as [->|Hne].
    + right. apply lookup_delete_eq.
    + destruct Hn' as [Hn'|Hn'].
      * apply elem_of_cons in Hn' as [->|Hn']; [contradiction | left; exact Hn'].
      * right. rewrite lookup_delete_ne by congruence. exact Hn'.
Qed.

(** X4.  Squashing is not repeatable: once [squash_mask] has succeeded on
    at least one name (the listed ones, or every configured data when no
    list is given), calling it again on the same names raises [ValueError]
    and leaves the instance as the first call left it. *)
Theorem squash_mask_twice (s s' : sparsifier) (names : option (list string))
  (leave leave' : bool) (u : unit) :
  default (map_to_list (data_groups s)).*1 names <> [] ->
  squash_mask names leave s = (Ok u, s') ->
  squash_mask names leave' s' = (Err ValueError, s').
Proof.
  intros Hne H. unfold squash_mask in *.
  unfold bind at 1, gets at 1 in H. cbv beta iota zeta in H.
  apply squash_each_unparametrized in H as [Hdg Hall].
  unfold bind at 1, gets at 1. cbv beta iota zeta. rewrite Hdg.
  destruct (default (map_to_list (data_groups s)).*1 names) as [|n l];
    [contradiction|].
  cbn [for_each]. unfold bind, on_container, remove_parametrizations.
  rewrite (Hall n) by (left; left). cbn. rewrite sparsifier_eta. reflexivity.
Qed.

(** ** What a failing call leaves behind *)

Lemma set_container_id (s : sparsifier) : set_container (_container s) s = s.
Proof. apply sparsifier_eta. Qed.

Lemma register_parameter_cases (name : string) (t : tensor) (c : container) :
  (exists e, register_parameter name t c = (Err e, c)) \/
  (register_parameter name t c
   = (Ok tt, {| params := <[name := t]> (params c);
                parametrizations := parametrizations c |}) /\
   parametrizations c !! name = None).
Proof.
  unfold register_parameter.
  destruct (has_dot name); [left; eauto|].
  destruct (String.eqb name ""); [left; eauto|].
  destruct (parametrizations c !! name) as [pl|].
  - left. destruct (apply_mods (mods pl) (original pl)); eauto.
  - destruct (params c !! name); [right; split; reflexivity|].
    destruct (reserved name); [left; eauto | right; split; reflexivity].
Qed.

Lemma register_parametrization_cases (name : string) (p : parametrization)
  (c : container) :
  (exists e, register_parametrization name p c = (Err e, c)) \/
  (exists c', register_parametrization name p c = (Ok tt, c') /\
     container_names c' = container_names c /\
     name ∈ container_names c' /\
     (parametrizations c !! name = None ->
      exists orig y,
        params c !! name = Some orig /\ forward p orig = Ok y /\
        c' = {| params := delete name (params c);
                parametrizations :=
                  <[name := {| original := orig; mods := [p] |}]>
                    (parametrizations c) |})).
Proof.
  unfold register_parametrization, container_names.
  destruct (parametrizations c !! name) as [pl|] eqn:Epl.
  - destruct (apply_mods (mods pl) (original pl)) as [y|]; [|left; eauto].
    destruct (check_parametrization p y) as [[]|]; [|left; eauto].
    right. eexists. split; [reflexivity|]. cbn.
    assert (name ∈ dom (parametrizations c)) by (apply elem_of_dom; eauto).
    rewrite dom_insert_L. split; [set_solver|]. split; [set_solver|].
    discriminate.
  - destruct (params c !! name) as [orig|] eqn:Ep; [|left; eauto].
    destruct (check_parametrization p orig) as [[]|] eqn:Ec; [|left; eauto].
    right. eexists. split; [reflexivity|]. cbn.
    assert (name ∈ dom (params c)) by (apply elem_of_dom; eauto).
    rewrite dom_insert_L, dom_delete_L. split; [|split].
    + apply set_eq. intros x. destruct (decide (x = name)); set_solver.
    + set_solver.
    + intros _. apply check_parametrization_ok in Ec as (y & Hy & _).
      exists orig, y. repeat split. exact Hy.
Qed.

(** The part of [add_data] between the bookkeeping of [data_groups] and
    the registration (lines 94-103) only touches the container, and leaves
    [name] as a direct parameter when it succeeds. *)
Lemma add_data_parameter_inv (o : option (gmap string cfgval)) (name : string)
  (weight : tensor) (s1 s2 : sparsifier) (r : result exn unit) :
  match o with
  | Some _ =>
      let* c := gets _container in
      let* _ :=
        if is_parametrized c name
        then squash_mask (Some [name]) false
        else ret tt in
      on_container (set_parameter_data name weight)
  | None => on_container (register_parameter name weight)
  end s1 = (r, s2) ->
  exists c, s2 = set_container c s1 /\
    (forall u, r = Ok u ->
       parametrizations c !! name = None /\ params c !! name = Some weight).
Proof.
  destruct o as [d|]; intros H.
  - apply bind_inv in H as [(e & H1 & _)|(c0 & s & H1 & H)];
      unfold gets in H1; [discriminate|]. injection H1 as <- <-.
    apply bind_inv in H as [(e & H1 & ->)|(u1 & s & H1 & H)].
    + destruct (is_parametrized (_container s1) name);
        [|unfold ret in H1; discriminate].
      rewrite squash_one_eval in H1. injection H1 as _ <-.
      eexists. split; [reflexivity|]. discriminate.
    + apply on_container_inv in H as (c2 & Hset & ->).
      unfold set_parameter_data in Hset.
      destruct (is_parametrized (_container s1) name) eqn:Eip.
      * rewrite squash_one_eval in H1. injection H1 as Hr <-.
        unfold remove_parametrizations in *.
        destruct (parametrizations (_container s1) !! name) as [pl|];
          [|discriminate]. cbn in *.
        rewrite lookup_insert_eq in Hset. injection Hset as <- <-.
        eexists. split; [reflexivity|]. intros _ _. cbn.
        split; [apply lookup_delete_eq | apply lookup_insert_eq].
      * unfold ret in H1. injection H1 as _ <-.
        unfold is_parametrized in Eip.
        destruct (parametrizations (_container s1) !! name) eqn:Epl;
          [discriminate|].
        destruct (params (_container s1) !! name).
        -- injection Hset as <- <-. eexists. split; [reflexivity|].
           intros _ _. cbn. split; [exact Epl | apply lookup_insert_eq].
        -- injection Hset as <- <-. eexists. split; [reflexivity|].
           discriminate.
  - apply on_container_inv in H as (c & Hreg & ->).
    exists c. split; [reflexivity|]. intros u ->.
    destruct (register_parameter_cases name weight (_container s1))
      as [[e He]|[Hok Hnone]]; rewrite Hreg in *; [discriminate|].
    injection Hok as _ Hc. rewrite Hc. cbn.
    split; [exact Hnone | apply lookup_insert_eq].
Qed.

(** X5.  A failing [add_data] never touches [state] or [defaults].  When
    the failure is the type assertion nothing has changed at all; any later
    failure (a mask of the wrong shape, a name the container refuses, ...)
    comes after [data_groups[name]] has already been overwritten with the
    merged configuration. *)
Theorem add_data_failure (s s' : sparsifier) (name : string)
  (data : data_obj) (config : gmap string cfgval) (e : exn) :
  add_data name data config s = (Err e, s') ->
  state s' = state s /\
  defaults s' = defaults s /\
  ((supported data = false /\ e = AssertionError /\ s' = s) \/
   (supported data = true /\
    data_groups s' = <[name := config ∪ defaults s]> (data_groups s))).
Proof.
  intros H. unfold add_data in H.
  destruct (supported data); cbn [negb] in H.
  2:{ unfold raise in H. injection H as <- <-.
      split; [reflexivity|]. split; [reflexivity|]. left. repeat split. }
  assert (Hgoal : exists c,
            s' = set_container c (set_data_group name (config ∪ defaults s) s)).
  { apply bind_inv in H as [(e0 & H1 & _)|(dflt & s1 & H1 & H)];
      unfold gets in H1; [discriminate|]. injection H1 as <- <-.
    apply bind_inv in H as [(e0 & H1 & _)|(u1 & s1 & H1 & H)];
      unfold modify in H1; [discriminate|]. injection H1 as _ <-.
    destruct (_extract_weight data) as [weight|].
    2:{ unfold raise in H. injection H as _ <-.
        eexists. symmetry. apply set_container_id. }
    apply bind_inv in H as [(e0 & H1 & _)|(st & s1 & H1 & H)];
      unfold gets in H1; [discriminate|]. injection H1 as <- <-.
    apply bind_inv in H as [(e0 & H1 & _)|(u2 & s2 & H1 & H)].
    { apply add_data_parameter_inv in H1 as (c & -> & _). eauto. }
    apply add_data_parameter_inv in H1 as (c2 & -> & Hnone).
    destruct (Hnone u2 eq_refl) as [Hq2 _]. clear Hnone. rename Hq2 into Hnone.
    apply bind_inv in H as [(e0 & H1 & _)|(p & s3 & H1 & H)];
      unfold lift in H1.
    { injection H1 as _ <-. eauto. }
    injection H1 as _ <-.
    apply bind_inv in H as [(e0 & H1 & _)|(u3 & s3 & H1 & H)].
    { apply on_container_inv in H1 as (c3 & _ & ->). eauto. }
    apply on_container_inv in H1 as (c3 & Hreg & ->). cbn in Hreg.
    exfalso.
    destruct (register_parametrization_cases name p c2)
      as [[e0 He0]|(c' & Hok & _ & _ & Hfresh)]; rewrite Hreg in *;
      [discriminate|].
    injection Hok as _ <-.
    destruct (Hfresh Hnone) as (orig & y & _ & Hy & ->).
    apply bind_inv in H as [(e0 & H1 & _)|(u4 & s4 & H1 & H)];
      unfold modify in H1; [discriminate|]. injection H1 as _ <-.
    apply on_container_inv in H as (c4 & Hget & _).
    unfold getattr in Hget. cbn in Hget.
    rewrite lookup_insert_eq in Hget. cbn in Hget. rewrite Hy in Hget.
    discriminate. }
  destruct Hgoal as [c ->]. cbn.
  split; [reflexivity|]. split; [reflexivity|]. right. split; reflexivity.
Qed.

(** ** [load_state_dict] on an arbitrary dictionary *)

Lemma container_names_register_parameter (name : string) (t : tensor)
  (c : container) :
  container_names {| params := <[name := t]> (params c);
                     parametrizations := parametrizations c |}
  = {[name]} ∪ container_names c.
Proof.
  unfold container_names. cbn. rewrite dom_insert_L. set_solver.
Qed.

(** One iteration of the loop only touches the container, adds at most
    [name] to it and, when it succeeds, has found [name] configured and
    stored, either directly or as the original of a parametrization that
    line 175 could instantiate. *)
Lemma load_entry_inv (dg : gmap string (gmap string cfgval))
  (csd : gmap string tensor) (name : string) (st : gmap string cfgval)
  (s s' : sparsifier) (r : result exn unit) :
  load_entry dg csd name st s = (r, s') ->
  exists c, s' = set_container c s /\
    container_names c ⊆ {[name]} ∪ container_names (_container s) /\
    (forall u, r = Ok u ->
       container_names c = {[name]} ∪ container_names (_container s) /\
       is_Some (dg !! name) /\
       (is_Some (csd !! name) \/
        (is_Some (csd !! parametrized_name name) /\
         dg !! "parametrization" = None))).
Proof.
  unfold load_entry. intros H.
  assert (Hsame : exists c, s = set_container c s /\
            container_names c ⊆ {[name]} ∪ container_names (_container s)).
  { exists (_container s). split; [symmetry; apply set_container_id|].
    set_solver. }
  destruct (dg !! name) as [cfg|].
  2:{ unfold raise in H. injection H as <- <-.
      destruct Hsame as (c & Hc & Hsub). exists c.
      split; [exact Hc|]. split; [exact Hsub|]. discriminate. }
  destruct (csd !! name) as [data|].
  { apply on_container_inv in H as (c & Hreg & ->).
    destruct (register_parameter_cases name data (_container s))
      as [[e He]|[Hok _]]; rewrite Hreg in *.
    - injection He as -> ->. exists (_container s).
      split; [reflexivity|]. split; [set_solver|]. discriminate.
    - injection Hok as -> ->. eexists. split; [reflexivity|].
      rewrite container_names_register_parameter.
      split; [set_solver|]. intros _ _. split; [reflexivity|]. eauto. }
  destruct (csd !! parametrized_name name) as [data|].
  2:{ unfold raise in H. injection H as <- <-.
      destruct Hsame as (c & Hc & Hsub). exists c.
      split; [exact Hc|]. split; [exact Hsub|]. discriminate. }
  apply bind_inv in H as [(e & H1 & ->)|(u1 & s1 & H1 & H)];
    apply on_container_inv in H1 as (c1 & Hreg & ->);
    destruct (register_parameter_cases name data (_container s))
      as [[e0 He]|[Hok _]]; rewrite Hreg in *; try discriminate.
  { injection He as _ ->. exists (_container s).
    split; [reflexivity|]. split; [set_solver|]. discriminate. }
  injection Hok as _ ->.
  apply bind_inv in H as [(e & H1 & ->)|(p & s2 & H1 & H)]; unfold lift in H1.
  { injection H1 as _ <-. eexists. split; [reflexivity|].
    rewrite container_names_register_parameter.
    split; [set_solver|]. discriminate. }
  injection H1 as Hinst <-.
  apply on_container_inv in H as (c2 & Hrp & ->). cbn in Hrp.
  match type of Hrp with
  | register_parametrization _ _ ?c = _ =>
      destruct (register_parametrization_cases name p c)
        as [[e0 He]|(c' & Hok & Hnames & _)]; rewrite Hrp in *
  end.
  - injection He as -> ->. eexists. split; [reflexivity|].
    rewrite container_names_register_parameter.
    split; [set_solver|]. discriminate.
  - injection Hok as -> ->. eexists. split; [reflexivity|].
    rewrite Hnames, container_names_register_parameter.
    split; [set_solver|]. intros _ _. split; [reflexivity|].
    split; [eauto|]. right. split; [eauto|].
    destruct (dg !! "parametrization"); [discriminate | reflexivity].
Qed.

Lemma load_entries_inv (dg : gmap string (gmap string cfgval))
  (csd : gmap string tensor) (entries : list (string * gmap string cfgval)) :
  forall (s s' : sparsifier) (r : result exn unit),
  for_each (fun e => load_entry dg csd e.1 e.2) entries s = (r, s') ->
  exists c, s' = set_container c s /\
    container_names c
      ⊆ list_to_set entries.*1 ∪ container_names (_container s) /\
    (forall u, r = Ok u ->
       container_names c
         = list_to_set entries.*1 ∪ container_names (_container s) /\
       forall n, n ∈ entries.*1 ->
         is_Some (dg !! n) /\
         (is_Some (csd !! n) \/
          (is_Some (csd !! parametrized_name n) /\
           dg !! "parametrization" = None))).
Proof.
  induction entries as [|[n st] l IH]; intros s s' r H; cbn [for_each] in H.
  - unfold ret in H. injection H as <- <-. exists (_container s).
    split; [symmetry; apply set_container_id|]. cbn.
    split; [set_solver|]. intros _ _. split; [set_solver|].
    intros n Hn. inversion Hn.
  - cbn [fmap list_fmap fst list_to_set].
    apply bind_inv in H as [(e & H1 & ->)|(u1 & s1 & H1 & H)];
      apply load_entry_inv in H1 as (c1 & -> & Hsub & Hok).
    + exists c1. split; [reflexivity|]. split; [clear -Hsub; set_solver|].
      discriminate.
    + destruct (Hok u1 eq_refl) as (Hnames & Hdg & Hcsd).
      apply IH in H as (c & -> & Hsub' & Hok').
      exists c. split; [reflexivity|]. cbn [set_container _container] in *.
      split; [clear -Hsub Hsub'; set_solver|]. intros u ->.
      destruct (Hok' u eq_refl) as (Hnames' & Hall).
      split; [rewrite Hnames', Hnames; clear; set_solver|].
      intros n' Hn'. apply elem_of_cons in Hn' as [->|Hn'];
        [split; assumption | apply Hall, Hn'].
Qed.

Lemma list_to_set_map_to_list_fst {V : Type} (m : gmap string V) :
  list_to_set (map_to_list m).*1 =@{gset string} dom m.
Proof.
  apply set_eq. intros n. rewrite elem_of_list_to_set, elem_of_dom.
  rewrite list_elem_of_fmap. split.
  - intros [[n' v] [-> Hin]]. apply elem_of_map_to_list in Hin. eauto.
  - intros [v Hv]. exists (n, v). split; [reflexivity|].
    apply elem_of_map_to_list, Hv.
Qed.

Lemma load_state_dict_inv (sd : state_dict_t) (strict : bool)
  (s s' : sparsifier) (r : result exn unit) :
  load_state_dict sd strict s = (r, s') ->
  exists c r0,
    _load_container_from_state (sd_state sd) (sd_data_groups sd)
      (sd_container sd)
      (if strict then set_container empty_container s else s)
    = (r0, set_container c s) /\
    match r0 with
    | Err e => r = Err e /\ s' = set_container c s
    | Ok _ =>
        r = Ok tt /\
        s' = {| defaults := defaults s;
                state := if strict then sd_state sd
                         else state s ∪ sd_state sd;
                data_groups := if strict then sd_data_groups sd
                               else data_groups s ∪ sd_data_groups sd;
                _container := c |}
    end.
Proof.
  unfold load_state_dict. intros H.
  apply bind_inv in H as [(e & H1 & _)|(u1 & s1 & H1 & H)].
  { destruct strict; [unfold modify in H1 | unfold ret in H1]; discriminate. }
  assert (Hs1 : s1 = if strict then set_container empty_container s else s).
  { destruct strict; [unfold modify in H1 | unfold ret in H1];
      injection H1 as _ <-; reflexivity. }
  clear H1. subst s1.
  apply bind_inv in H as [(e & H1 & ->)|(u2 & s2 & H1 & H)].
  - pose proof H1 as H2. unfold _load_container_from_state in H2.
    apply load_entries_inv in H2 as (c & -> & _).
    exists c, (Err e). rewrite H1.
    destruct strict; (split; [reflexivity|]); split; reflexivity.
  - pose proof H1 as H2. unfold _load_container_from_state in H2.
    apply load_entries_inv in H2 as (c & -> & _).
    exists c, (Ok u2). rewrite H1.
    unfold __setstate__, bind, gets, ret, modify in H. cbn in H.
    injection H as <- <-.
    destruct strict; (split; [reflexivity|]); split; reflexivity.
Qed.

(** X6.  A failing [load_state_dict] never touches [state], [data_groups]
    or [defaults]: they are only written after the container has been
    rebuilt.  The container is not protected in the same way: with
    [strict=True] it has been reset, so after a failure it holds at most
    names of the dictionary being loaded, and whatever it held before is
    gone; with [strict=False] it holds at most those and the names it held
    before. *)
Theorem load_state_dict_failure (sd : state_dict_t) (strict : bool)
  (s s' : sparsifier) (e : exn) :
  load_state_dict sd strict s = (Err e, s') ->
  state s' = state s /\ data_groups s' = data_groups s /\
  defaults s' = defaults s /\
  container_names (_container s')
    ⊆ dom (sd_state sd)
      ∪ (if strict then ∅ else container_names (_container s)).
Proof.
  intros H. apply load_state_dict_inv in H as (c & r0 & Hload & Hr).
  destruct r0 as [u|e0]; [destruct Hr as [Hr _]; discriminate|].
  destruct Hr as [_ ->]. cbn.
  repeat (split; [reflexivity|]).
  unfold _load_container_from_state in Hload.
  apply load_entries_inv in Hload as (c' & Hc' & Hsub & _).
  rewrite list_to_set_map_to_list_fst in Hsub.
  assert (c' = c) as ->.
  { apply (f_equal _container) in Hc'. destruct strict; cbn in Hc'; congruence. }
  destruct strict; cbn in Hsub; [|exact Hsub].
  unfold container_names in Hsub at 2. cbn in Hsub.
  rewrite !dom_empty_L in Hsub. set_solver.
Qed.

(** X7.  What a successful [load_state_dict] guarantees, for a dictionary
    none of whose [state] names is [parametrizations] or another attribute
    of the container module: [state] and [data_groups] are those of the
    dictionary ([strict=True]) or the current ones completed by the
    dictionary's ([strict=False], the current entry wins on a common name);
    the container holds exactly the names of the loaded [state] (besides
    the names it already held when not strict); and every loaded name was
    configured in the dictionary's [data_groups] and stored in its
    container part, directly or as a parametrized original.  The last case
    is only possible when the dictionary's [data_groups] has no data called
    [parametrization]: a dictionary with such a data and a name that is
    still parametrized can never be loaded. *)
Theorem load_state_dict_success (sd : state_dict_t) (strict : bool)
  (s s' : sparsifier) (u : unit) :
  (forall n, is_Some (sd_state sd !! n) -> reserved n = false) ->
  load_state_dict sd strict s = (Ok u, s') ->
  defaults s' = defaults s /\
  state s' = (if strict then sd_state sd else state s ∪ sd_state sd) /\
  data_groups s'
    = (if strict then sd_data_groups sd
       else data_groups s ∪ sd_data_groups sd) /\
  container_names (_container s')
    = dom (sd_state sd)
      ∪ (if strict then ∅ else container_names (_container s)) /\
  forall n, is_Some (sd_state sd !! n) ->
    is_Some (sd_data_groups sd !! n) /\
    (is_Some (sd_container sd !! n) \/
     (is_Some (sd_container sd !! parametrized_name n) /\
      sd_data_groups sd !! "parametrization" = None)).
Proof.
  intros _ H. apply load_state_dict_inv in H as (c & r0 & Hload & Hr).
  destruct r0 as [u0|e0]; [|destruct Hr as [Hr _]; discriminate].
  destruct Hr as [_ ->]. cbn.
  repeat (split; [reflexivity|]).
  unfold _load_container_from_state in Hload.
  apply load_entries_inv in Hload as (c' & Hc' & _ & Hok).
  destruct (Hok u0 eq_refl) as (Hnames & Hall).
  rewrite list_to_set_map_to_list_fst in Hnames.
  assert (c' = c) as ->.
  { apply (f_equal _container) in Hc'. destruct strict; cbn in Hc'; congruence. }
  split.
  - destruct strict; cbn in Hnames; [|exact Hnames].
    unfold container_names in Hnames at 2. cbn in Hnames.
    rewrite !dom_empty_L in Hnames. rewrite Hnames. set_solver.
  - intros n [st Hst]. apply Hall. apply list_elem_of_fmap.
    exists (n, st). split; [reflexivity|]. apply elem_of_map_to_list, Hst.
Qed.

(** ** Loading the dictionary of a well-formed instance into another one *)

(** The loop of [_load_container_from_state] on entries of a well-formed
    [s], started on a container that holds none of their names: it ends on
    a container that agrees with the one of [s] on these names and is as
    before on every other name. *)
Lemma load_entries_merge (s : sparsifier) (Hwf : well_formed s = true)
  (entries : list (string * gmap string cfgval)) :
  forall sx : sparsifier,
  NoDup entries.*1 ->
  (forall n st, (n, st) ∈ entries -> state s !! n = Some st) ->
  (forall n, n ∈ entries.*1 ->
     params (_container sx) !! n = None /\
     parametrizations (_container sx) !! n = None) ->
  exists c1,
    for_each
      (fun e => load_entry (data_groups s)
                  (container_state_dict (_container s)) e.1 e.2)
      entries sx
    = (Ok tt, set_container c1 sx) /\
    (forall n, n ∈ entries.*1 ->
       params c1 !! n = params (_container s) !! n /\
       parametrizations c1 !! n = parametrizations (_container s) !! n) /\
    (forall n, n ∉ entries.*1 ->
       params c1 !! n = params (_container sx) !! n /\
       parametrizations c1 !! n = parametrizations (_container sx) !! n).
Proof.
  induction entries as [|[n st] r IH]; intros sx Hnd Hin Hfresh.
  - exists (_container sx). cbn. unfold ret. rewrite set_container_id.
    split; [reflexivity|]. split.
    + intros n Hn. inversion Hn.
    + intros n _. split; reflexivity.
  - cbn [fmap list_fmap fst] in Hnd, Hfresh |- *.
    apply NoDup_cons in Hnd as [Hnr Hnd].
    destruct (Hfresh n ltac:(left)) as [Hxp Hxq].
    destruct (load_entry_restores s Hwf n st sx (Hin n st ltac:(left)) Hxq Hxp)
      as (c' & Hload & Hcp & Hcq & Hframe).
    destruct (IH (set_container c' sx) Hnd) as (c1 & Hloop & Hyes & Hno).
    + intros n' st' Hn'. apply Hin. right. exact Hn'.
    + cbn [set_container _container]. intros n' Hn'.
      assert (n' <> n) by (intros ->; contradiction).
      destruct (Hframe n' ltac:(assumption)) as [-> ->].
      apply Hfresh. right. exact Hn'.
    + exists c1. split; [|split].
      * cbn [for_each]. unfold bind. cbn [fst snd]. rewrite Hload.
        rewrite Hloop. reflexivity.
      * intros n' Hn'. destruct (decide (n' ∈ r.*1)) as [Hr|Hr];
          [apply Hyes, Hr|].
        apply elem_of_cons in Hn' as [->|Hn']; [|contradiction].
        destruct (Hno n Hr) as [-> ->]. cbn [set_container _container].
        split; assumption.
      * intros n' Hn'. apply not_elem_of_cons in Hn' as [Hne Hr].
        destruct (Hno n' Hr) as [-> ->]. cbn [set_container _container].
        apply Hframe, Hne.
Qed.

Lemma load_container_merge (s sx : sparsifier) :
  well_formed s = true ->
  (forall n, is_Some (state s !! n) -> n ∉ container_names (_container sx)) ->
  _load_container_from_state (state s) (data_groups s)
    (container_state_dict (_container s)) sx
  = (Ok tt,
     set_container
       {| params := params (_container sx) ∪ params (_container s);
          parametrizations :=
            parametrizations (_container sx) ∪ parametrizations (_container s) |}
       sx).
Proof.
  intros Hwf Hdisj.
  destruct (well_formed_spec s Hwf) as (_ & Hsub & _).
  assert (Hnone : forall n, is_Some (state s !! n) ->
            params (_container sx) !! n = None /\
            parametrizations (_container sx) !! n = None).
  { intros n Hn. apply Hdisj in Hn. unfold container_names in Hn.
    apply not_elem_of_union in Hn as [Hp Hq].
    split; apply not_elem_of_dom; assumption. }
  assert (Hout : forall n, state s !! n = None ->
            params (_container s) !! n = None /\
            parametrizations (_container s) !! n = None).
  { intros n Hn. split; apply eq_None_not_Some; intros Hsome.
    - destruct (Hsub n) as [st Hst]; [|congruence].
      unfold container_names. apply elem_of_union_l, elem_of_dom, Hsome.
    - destruct (Hsub n) as [st Hst]; [|congruence].
      unfold container_names. apply elem_of_union_r, elem_of_dom, Hsome. }
  destruct (load_entries_merge s Hwf (map_to_list (state s)) sx)
    as (c1 & Hloop & Hyes & Hno).
  - apply NoDup_fst_map_to_list.
  - intros n st Hn. apply elem_of_map_to_list, Hn.
  - intros n Hn. apply Hnone.
    apply list_elem_of_fmap in Hn as [[n' st'] [-> Hn]].
    apply elem_of_map_to_list in Hn. eauto.
  - unfold _load_container_from_state. rewrite Hloop. do 2 f_equal.
    apply container_ext; intros n; cbn [params parametrizations];
      rewrite lookup_union; destruct (state s !! n) as [st|] eqn:Est.
    + destruct (Hyes n) as [-> _].
      { apply list_elem_of_fmap. exists (n, st). split; [reflexivity|].
        apply elem_of_map_to_list, Est. }
      destruct (Hnone n ltac:(eauto)) as [-> _].
      destruct (params (_container s) !! n); reflexivity.
    + destruct (Hno n) as [-> _].
      { intros Hn. apply list_elem_of_fmap in Hn as [[n' st'] [-> Hn]].
        apply elem_of_map_to_list in Hn. cbn [fst] in Est. congruence. }
      destruct (Hout n Est) as [-> _].
      destruct (params (_container sx) !! n); reflexivity.
    + destruct (Hyes n) as [_ ->].
      { apply list_elem_of_fmap. exists (n, st). split; [reflexivity|].
        apply elem_of_map_to_list, Est. }
      destruct (Hnone n ltac:(eauto)) as [_ ->].
      destruct (parametrizations (_container s) !! n); reflexivity.
    + destruct (Hno n) as [_ ->].
      { intros Hn. apply list_elem_of_fmap in Hn as [[n' st'] [-> Hn]].
        apply elem_of_map_to_list in Hn. cbn [fst] in Est. congruence. }
      destruct (Hout n Est) as [_ ->].
      destruct (parametrizations (_container sx) !! n); reflexivity.
Qed.

Lemma load_container_fresh (s s0 : sparsifier) :
  well_formed s = true ->
  _load_container_from_state (state s) (data_groups s)
    (container_state_dict (_container s)) (set_container empty_container s0)
  = (Ok tt, set_container (_container s) s0).
Proof.
  intros Hwf. rewrite load_container_merge; [|exact Hwf|].
  - cbn. unfold set_container. cbn. rewrite !(left_id_L ∅ (∪)).
    destruct (_container s). reflexivity.
  - intros n _. unfold container_names. cbn. rewrite !dom_empty_L.
    set_solver.
Qed.

(** X8.  A checkpoint can be moved: the [state_dict()] of a well-formed
    sparsifier, loaded with [strict=True] into any other instance, succeeds
    and makes that instance equal to the saved one in [state],
    [data_groups] and container; only [defaults], which the dictionary
    does not carry, stay those of the receiving instance. *)
Theorem load_state_dict_transfer (s s0 : sparsifier) :
  well_formed s = true ->
  load_state_dict (state_dict s) true s0
  = (Ok tt, {| defaults := defaults s0; state := state s;
               data_groups := data_groups s; _container := _container s |}).
Proof.
  intros Hwf. unfold load_state_dict.
  cbn [state_dict sd_state sd_data_groups sd_container].
  unfold bind at 1. unfold modify at 1.
  unfold bind at 1. rewrite (load_container_fresh s s0 Hwf).
  reflexivity.
Qed.


(** ** Pickling *)

(** X10.  Pickling round trip: [__setstate__] on the result of
    [__getstate__] of a well-formed sparsifier rebuilds exactly that
    sparsifier ([defaults], [state], [data_groups] and the container with
    its parametrizations), whatever the instance it is run on held. *)
Theorem pickle_round_trip (s s0 : sparsifier) :
  well_formed s = true ->
  unpickle (__getstate__ s) s0 = (Ok tt, s).
Proof.
  intros Hwf. unfold unpickle, __setstate__.
  cbn [__getstate__ gs_rest gs_defaults pk_state pk_data_groups pk_container].
  unfold bind at 1. unfold bind at 1. unfold bind at 1. unfold modify at 1.
  rewrite (load_container_fresh s s0 Hwf).
  unfold modify. cbn. rewrite sparsifier_eta. reflexivity.
Qed.

(** ** [step] *)

Lemma get_data_original_squashed (s : sparsifier) (name : string) :
  is_Some (data_groups s !! name) ->
  is_parametrized (_container s) name = false ->
  get_data name true s = (Err ValueError, s).
Proof.
  intros [cfg Hcfg] Hnp. unfold get_data, bind, gets. cbn.
  rewrite Hcfg, Hnp. reflexivity.
Qed.

(** Once no configured data is parametrized, [step] fails on the first
    name, before [update_mask] is called at all. *)
Lemma step_unparametrized
  (update_mask : string -> tensor -> gmap string cfgval -> St sparsifier unit)
  (s : sparsifier) :
  data_groups s <> ∅ ->
  (forall n, is_Some (data_groups s !! n) ->
     is_parametrized (_container s) n = false) ->
  step update_mask true s = (Err ValueError, s).
Proof.
  intros Hne Hall. unfold step. cbn [negb]. unfold bind at 1, gets at 1.
  destruct (map_to_list (data_groups s)) as [|[n cfg] l] eqn:El.
  - apply map_to_list_empty_iff in El. contradiction.
  - assert (Hn : data_groups s !! n = Some cfg).
    { apply elem_of_map_to_list. rewrite El. left. }
    cbn [for_each]. unfold bind. cbn [fst].
    rewrite get_data_original_squashed; [reflexivity|eauto|].
    apply Hall. eauto.
Qed.

(** X11.  After [squash_mask()] has squashed every data of a sparsifier
    that holds at least one, [step()] cannot run any more: with mask
    updates enabled it raises the [ValueError] of [get_data] (the original
    no longer exists) without calling [update_mask] and without changing
    anything; with mask updates disabled it does nothing. *)
Theorem step_after_squash_mask
  (update_mask : string -> tensor -> gmap string cfgval -> St sparsifier unit)
  (s s' : sparsifier) (leave enable : bool) (u : unit) :
  data_groups s <> ∅ ->
  squash_mask None leave s = (Ok u, s') ->
  step update_mask enable s' = (if enable then Err ValueError else Ok tt, s').
Proof.
  intros Hne H. destruct enable; [|reflexivity].
  unfold squash_mask in H. unfold bind at 1, gets at 1 in H. cbn [default] in H.
  apply squash_each_unparametrized in H as [Hdg Hall].
  apply step_unparametrized.
  - rewrite Hdg. exact Hne.
  - intros n [cfg Hn]. unfold is_parametrized. rewrite Hall; [reflexivity|].
    left. rewrite Hdg in Hn. apply list_elem_of_fmap. exists (n, cfg).
    split; [reflexivity|]. apply elem_of_map_to_list, Hn.
Qed.

(** ** [__init__] *)

Lemma add_each_well_formed (dflt : gmap string cfgval)
  (l : list (string * data_obj)) :
  dflt !! "parametrization" = None ->
  (forall nd, nd ∈ l -> nd.1 <> "parametrization") ->
  forall (s s' : sparsifier) (u : unit),
  well_formed s = true ->
  defaults s = dflt ->
  for_each (fun nd => let* _ := add_data nd.1 nd.2 dflt in ret tt) l s
    = (Ok u, s') ->
  well_formed s' = true /\
  defaults s' = dflt /\
  dom (state s') = dom (state s) ∪ list_to_set l.*1 /\
  dom (data_groups s') = dom (data_groups s) ∪ list_to_set l.*1 /\
  forall n, n ∈ l.*1 \/ is_parametrized (_container s) n = true ->
    is_parametrized (_container s') n = true.
Proof.
  intros Hpc. induction l as [|[n d] l IH]; intros Hnames s s' u Hwf Hd H;
    cbn [for_each] in H.
  - unfold ret in H. injection H as _ <-. cbn.
    split; [exact Hwf|]. split; [exact Hd|].
    split; [set_solver|]. split; [set_solver|].
    intros n [Hn|Hn]; [inversion Hn | exact Hn].
  - apply bind_inv in H as [(e & _ & He)|(u1 & s1 & H1 & H)]; [discriminate|].
    apply bind_inv in H1 as [(e & _ & He)|(r & s2 & Hadd & H1)];
      [discriminate|].
    unfold ret in H1. injection H1 as _ <-. cbn [fst snd] in Hadd.
    assert (Hcfg : (dflt ∪ defaults s) !! "parametrization" = None).
    { rewrite Hd, (idemp (∪) dflt). exact Hpc. }
    assert (Hwf2 : well_formed s2 = true).
    { eapply add_data_well_formed; [exact Hwf | | exact Hcfg | exact Hadd].
      apply (Hnames (n, d)). left. }
    apply add_data_success in Hadd as (weight & m & p & _ & _ & _ & _ & _ & _ & Hs2).
    destruct (IH (fun nd Hnd => Hnames nd ltac:(right; exact Hnd)) s2 s' u Hwf2)
      as (Hwf' & Hd' & Hst & Hdg & Hpar); [rewrite Hs2; exact Hd | exact H |].
    split; [exact Hwf'|]. split; [exact Hd'|].
    rewrite Hs2 in Hst, Hdg, Hpar.
    cbn [state data_groups _container parametrizations] in Hst, Hdg, Hpar.
    rewrite dom_insert_L in Hst, Hdg.
    cbn [fmap list_fmap fst list_to_set].
    split; [rewrite Hst; clear; set_solver|].
    split; [rewrite Hdg; clear; set_solver|].
    intros n' Hn'. apply Hpar. unfold is_parametrized in *.
    cbn [parametrizations].
    destruct (decide (n' = n)) as [->|Hne].
    + right. rewrite lookup_insert_eq. reflexivity.
    + rewrite lookup_insert_ne by congruence.
      destruct Hn' as [Hn'|Hn']; [|right; exact Hn'].
      apply elem_of_cons in Hn' as [->|Hn']; [contradiction | left; exact Hn'].
Qed.

(** X12.  A sparsifier that the constructor builds from a data list is
    well-formed, provided no data is called [parametrization] and the
    defaults name no parametrization class: its [state] and [data_groups]
    have exactly the listed names, its [defaults] are the given ones, and
    every listed data is parametrized. *)
Theorem init_well_formed (l : list (string * data_obj))
  (dflt : gmap string cfgval) (u : unit) (s : sparsifier) :
  dflt !! "parametrization" = None ->
  (forall nd, nd ∈ l -> nd.1 <> "parametrization") ->
  init (Some l) dflt = (Ok u, s) ->
  well_formed s = true /\
  defaults s = dflt /\
  dom (state s) = list_to_set l.*1 /\
  dom (data_groups s) = list_to_set l.*1 /\
  forall n, n ∈ l.*1 -> is_parametrized (_container s) n = true.
Proof.
  intros Hpc Hnames H. unfold init in H.
  apply (add_each_well_formed dflt l Hpc Hnames) in H
    as (Hwf & Hd & Hst & Hdg & Hpar);
    [|apply (fresh_well_formed dflt) | reflexivity].
  cbn in Hst, Hdg. rewrite dom_empty_L, (left_id_L ∅ (∪)) in Hst, Hdg.
  repeat (split; [assumption|]). intros n Hn. apply Hpar. left. exact Hn.
Qed.

(** ** When [add_data] succeeds *)

Lemma register_parameter_eval (name : string) (t : tensor) (c : container) :
  has_dot name = false -> String.eqb name "" = false ->
  parametrizations c !! name = None ->
  (params c !! name = None -> reserved name = false) ->
  register_parameter name t c
  = (Ok tt, {| params := <[name := t]> (params c);
               parametrizations := parametrizations c |}).
Proof.
  intros Hd He Hq Hr. unfold register_parameter. rewrite Hd, He, Hq.
  destruct (params c !! name); [reflexivity|].
  rewrite Hr by reflexivity. reflexivity.
Qed.

Lemma register_parametrization_eval (name : string) (p : parametrization)
  (c : container) (orig : tensor) :
  parametrizations c !! name = None -> params c !! name = Some orig ->
  check_parametrization p orig = Ok tt ->
  register_parametrization name p c
  = (Ok tt, {| params := delete name (params c);
               parametrizations :=
                 <[name := {| original := orig; mods := [p] |}]>
                   (parametrizations c) |}).
Proof.
  intros Hq Hp Hc. unfold register_parametrization. rewrite Hq, Hp, Hc.
  reflexivity.
Qed.

(** The converse of [add_data_success]: what is enough for the call to go
    through. *)
Lemma add_data_eval (s : sparsifier) (name : string) (data : data_obj)
  (config : gmap string cfgval) (weight m r : tensor) (p : parametrization) :
  _extract_weight data = Some weight ->
  default (VTensor (ones_like weight)) ((config ∪ defaults s) !! "mask")
    = VTensor m ->
  instantiate (default (VParamClass FakeSparsity)
                 ((config ∪ defaults s) !! "parametrization")) (VTensor m)
    = Ok p ->
  forward p weight = Ok r -> shape r = shape weight ->
  match state s !! name with
  | Some _ => name ∈ container_names (_container s)
  | None =>
      has_dot name = false /\ String.eqb name "" = false /\
      parametrizations (_container s) !! name = None /\
      (params (_container s) !! name = None -> reserved name = false)
  end ->
  add_data name data config s
  = (Ok r,
     {| defaults := defaults s;
        state := <[name := <["mask" := VTensor m]> (default ∅ (state s !! name))]>
                   (state s);
        data_groups := <[name := config ∪ defaults s]> (data_groups s);
        _container :=
          {| params := delete name (params (_container s));
             parametrizations :=
               <[name := {| original := weight; mods := [p] |}]>
                 (parametrizations (_container s)) |} |}).
Proof.
  intros Hw Hm Hinst Hfwd Hshape Hname.
  assert (Hsup : supported data = true)
    by (destruct data; first [reflexivity | discriminate]).
  assert (Hcheck : check_parametrization p weight = Ok tt).
  { unfold check_parametrization. rewrite Hfwd.
    rewrite bool_decide_eq_true_2 by exact Hshape. reflexivity. }
  unfold add_data. rewrite Hsup. cbn [negb].
  unfold bind at 1, gets at 1. cbv beta iota zeta.
  unfold bind at 1, modify at 1. cbv beta iota zeta.
  rewrite Hw. cbv beta iota zeta. rewrite Hm.
  unfold bind at 1, gets at 1. cbv beta iota zeta.
  cbn [state set_data_group].
  assert (Hstep : exists c2,
    (match state s !! name with
     | Some _ =>
         let* c := gets _container in
         let* _ :=
           if is_parametrized c name
           then squash_mask (Some [name]) false
           else ret tt in
         on_container (set_parameter_data name weight)
     | None => on_container (register_parameter name weight)
     end) (set_data_group name (config ∪ defaults s) s)
    = (Ok tt, set_container c2 (set_data_group name (config ∪ defaults s) s)) /\
    parametrizations c2 !! name = None /\
    params c2 !! name = Some weight /\
    delete name (params c2) = delete name (params (_container s)) /\
    (forall v, <[name := v]> (parametrizations c2)
               = <[name := v]> (parametrizations (_container s)))).
  { destruct (state s !! name) as [d|].
    - unfold bind at 1, gets at 1. cbv beta iota zeta.
      cbn [_container set_data_group].
      unfold is_parametrized.
      destruct (parametrizations (_container s) !! name) as [pl|] eqn:Eq.
      + unfold bind at 1. rewrite squash_one_eval.
        cbn [_container set_data_group].
        unfold remove_parametrizations at 1 2. rewrite Eq.
        cbv beta iota zeta. cbn [fst snd].
        unfold on_container, set_parameter_data.
        cbn [_container set_container params]. rewrite lookup_insert_eq.
        eexists. split; [reflexivity|]. cbn [params parametrizations].
        rewrite lookup_delete_eq, lookup_insert_eq, insert_insert_eq,
          !delete_insert_eq.
        split; [reflexivity|]. split; [reflexivity|]. split; [reflexivity|].
        intros v. apply insert_delete_eq.
      + unfold bind at 1, ret at 1. cbv beta iota zeta.
        unfold on_container, set_parameter_data.
        cbn [_container set_data_group].
        unfold container_names in Hname.
        apply elem_of_union in Hname as [Hp|Hq];
          [|apply elem_of_dom in Hq as [? Hq]; congruence].
        apply elem_of_dom in Hp as [t Ht]. rewrite Ht.
        eexists. split; [reflexivity|]. cbn [params parametrizations].
        rewrite lookup_insert_eq, delete_insert_eq.
        split; [exact Eq|]. split; [reflexivity|]. split; reflexivity.
    - destruct Hname as (Hd & He & Hq & Hr).
      unfold on_container. cbn [_container set_data_group].
      rewrite (register_parameter_eval name weight _ Hd He Hq Hr).
      eexists. split; [reflexivity|]. cbn [params parametrizations].
      rewrite lookup_insert_eq, delete_insert_eq.
      split; [exact Hq|]. split; [reflexivity|]. split; reflexivity. }
  destruct Hstep as (c2 & Hstep & Hq2 & Hp2 & Hdel & Hins).
  unfold bind at 1. rewrite Hstep.
  unfold bind at 1, lift at 1. cbn [defaults set_data_group] in Hinst |- *.
  rewrite Hinst.
  unfold bind at 1, on_container at 1. cbn [_container set_container].
  rewrite (register_parametrization_eval name p c2 weight Hq2 Hp2 Hcheck).
  unfold bind at 1, modify at 1.
  unfold on_container, getattr. cbn [_container set_state_mask parametrizations].
  rewrite lookup_insert_eq. cbn [apply_mods mods original]. rewrite Hfwd.
  rewrite Hdel, Hins. reflexivity.
Qed.

Lemma add_data_success_shape (s s' : sparsifier) (name : string)
  (data : data_obj) (config : gmap string cfgval) (r : tensor) :
  add_data name data config s = (Ok r, s') ->
  exists weight, _extract_weight data = Some weight /\ shape r = shape weight.
Proof.
  intros H. unfold add_data in H.
  destruct (supported data); [|discriminate]. cbn [negb] in H.
  apply bind_ok in H as (dflt & s1 & H1 & H).
  unfold gets in H1. injection H1 as <- <-.
  apply bind_ok in H as (u1 & s1 & H1 & H).
  unfold modify in H1. injection H1 as _ <-.
  destruct (_extract_weight data) as [weight|]; [|discriminate].
  exists weight. split; [reflexivity|].
  apply bind_ok in H as (st & s1 & H1 & H).
  unfold gets in H1. injection H1 as <- <-.
  apply bind_ok in H as (u2 & s2 & H1 & H).
  apply add_data_parameter_inv in H1 as (c2 & -> & Hok).
  destruct (Hok u2 eq_refl) as [Hq Hp].
  apply bind_ok in H as (p & s3 & H1 & H).
  unfold lift in H1. injection H1 as Hinst <-.
  apply bind_ok in H as (u3 & s3 & H1 & H).
  apply on_container_inv in H1 as (c3 & Hreg & ->). cbn in Hreg.
  apply (register_parametrization_fresh _ _ _ _ _ Hq) in Hreg
    as (orig & Horig & Hcheck & ->).
  rewrite Hp in Horig. injection Horig as <-.
  apply check_parametrization_ok in Hcheck as (y & Hy & Hshape).
  apply bind_ok in H as (u4 & s4 & H1 & H).
  unfold modify in H1. injection H1 as _ <-.
  apply on_container_inv in H as (c4 & Hget & _).
  unfold getattr in Hget. cbn in Hget.
  rewrite lookup_insert_eq in Hget. cbn in Hget. rewrite Hy in Hget.
  injection Hget as <- _. exact Hshape.
Qed.

(** X13.  [add_data] is idempotent when no [parametrization] class is
    configured: after a successful [add_data(name, data, **config)], the
    same call again takes the replacement path (squash, overwrite,
    parametrize anew), succeeds, returns the same tensor and leaves the
    sparsifier exactly as the first call left it. *)
Theorem add_data_idempotent (s s' : sparsifier) (name : string)
  (data : data_obj) (config : gmap string cfgval) (r : tensor) :
  (config ∪ defaults s) !! "parametrization" = None ->
  add_data name data config s = (Ok r, s') ->
  add_data name data config s' = (Ok r, s').
Proof.
  intros _ H.
  destruct (add_data_success_shape _ _ _ _ _ _ H) as (weight' & Hw' & Hshape).
  apply add_data_success in H
    as (weight & m & p & Hw & Hm & Hinst & Hfwd & _ & _ & Hs').
  rewrite Hw in Hw'. injection Hw' as <-.
  assert (Hd : defaults s' = defaults s) by (rewrite Hs'; reflexivity).
  rewrite <- Hd in Hm, Hinst.
  rewrite (add_data_eval s' name data config weight m r p Hw Hm Hinst Hfwd Hshape).
  - rewrite Hd. rewrite Hs' at 5. f_equal. rewrite Hs'.
    cbn [defaults state data_groups _container params parametrizations].
    rewrite lookup_insert_eq. cbn [default from_option id].
    rewrite !insert_insert_eq, delete_delete_eq. reflexivity.
  - rewrite Hs'. cbn [state _container]. rewrite lookup_insert_eq.
    unfold container_names. cbn [parametrizations].
    apply elem_of_union_r, elem_of_dom. rewrite lookup_insert_eq. eauto.
Qed.


(** ** When [squash_mask] succeeds *)

Lemma squash_each_succeeds (leave : bool) (names : list string) :
  NoDup names ->
  forall sx : sparsifier,
  (forall n, n ∈ names ->
     exists pl t, parametrizations (_container sx) !! n = Some pl /\
       apply_mods (mods pl) (original pl) = Ok t) ->
  (for_each (fun name => on_container (remove_parametrizations name leave))
     names sx).1 = Ok tt.
Proof.
  induction names as [|n l IH]; intros Hnd sx Hall; [reflexivity|].
  apply NoDup_cons in Hnd as [Hnl Hnd].
  destruct (Hall n ltac:(left)) as (pl & t & Hpl & Ht).
  cbn [for_each]. unfold bind, on_container at 1, remove_parametrizations at 1.
  rewrite Hpl, Ht.
  assert (Hrest : forall c',
            parametrizations c' = delete n (parametrizations (_container sx)) ->
            (for_each
               (fun name => on_container (remove_parametrizations name leave))
               l (set_container c' sx)).1 = Ok tt).
  { intros c' Hc'. apply IH; [exact Hnd|]. intros n' Hn'. cbn. rewrite Hc'.
    rewrite lookup_delete_ne by (intros ->; contradiction).
    apply Hall. right. exact Hn'. }
  destruct leave; cbn; apply Hrest; reflexivity.
Qed.

(** X16.  [squash_mask()] on a well-formed sparsifier whose configured data
    are all still parametrized succeeds, with either value of
    [leave_parametrized]: the masks that [add_data] registered have the
    shape of their data, so every parametrization can be evaluated and
    removed. *)
Theorem squash_mask_all_succeeds (s : sparsifier) (leave : bool) :
  well_formed s = true ->
  (forall n, is_Some (data_groups s !! n) ->
     is_parametrized (_container s) n = true) ->
  (squash_mask None leave s).1 = Ok tt.
Proof.
  intros Hwf Hall.
  destruct (well_formed_spec s Hwf) as (Hent & Hsub & _).
  unfold squash_mask. unfold bind at 1, gets at 1. cbv beta iota zeta.
  cbn [default from_option id].
  apply squash_each_succeeds; [apply NoDup_fst_map_to_list|].
  intros n Hn. apply list_elem_of_fmap in Hn as [[n' cfg] [-> Hn]].
  apply elem_of_map_to_list in Hn. cbn [fst].
  assert (Hpar : is_parametrized (_container s) n' = true)
    by (apply Hall; eauto).
  unfold is_parametrized in Hpar.
  destruct (parametrizations (_container s) !! n') as [pl|] eqn:Epl;
    [|discriminate].
  destruct (Hsub n') as [st Hst].
  { unfold container_names. apply elem_of_union_r, elem_of_dom. eauto. }
  destruct (entry_ok_inv s n' st (Hent n' st Hst))
    as (_ & _ & _ & _ & [[Hq _]|[_ (orig & m & Hq & _ & Hshape)]]);
    [congruence|].
  rewrite Epl in Hq. injection Hq as ->.
  exists {| original := orig;
            mods := [{| p_class := FakeSparsity; p_mask := m |}] |},
         (tensor_mul m orig).
  split; [reflexivity|]. cbn. unfold forward. cbn.
  rewrite bool_decide_eq_true_2 by exact Hshape. reflexivity.
Qed.

(** ** Merging keeps the instance well-formed *)

Lemma entry_ok_merge (cur other : sparsifier) (c : container)
  (dg : gmap string (gmap string cfgval)) (d : gmap string cfgval)
  (st0 : gmap string (gmap string cfgval)) (n : string)
  (st : gmap string cfgval) (s : sparsifier) :
  entry_ok s n st = true ->
  is_Some (dg !! n) ->
  params c !! n = params (_container s) !! n ->
  parametrizations c !! n = parametrizations (_container s) !! n ->
  entry_ok {| defaults := d; state := st0; data_groups := dg;
              _container := c |} n st = true.
Proof.
  unfold entry_ok. cbn [data_groups _container]. intros H Hdg -> ->.
  apply andb_true_iff in H as [H Hm].
  apply andb_true_iff in H as [_ Hv].
  rewrite Hv, Hm, bool_decide_eq_true_2 by exact Hdg. reflexivity.
Qed.

(** X17.  Merging keeps a sparsifier loadable: for two well-formed
    sparsifiers with no name in common, loading the [state_dict()] of one
    into the other with [strict=False] succeeds and the result is
    well-formed again. *)
Theorem load_state_dict_merge_well_formed (other cur : sparsifier) :
  well_formed other = true ->
  well_formed cur = true ->
  dom (state cur) ## dom (state other) ->
  exists s',
    load_state_dict (state_dict other) false cur = (Ok tt, s') /\
    well_formed s' = true.
Proof.
  intros Hwo Hwc Hdisj.
  destruct (well_formed_spec other Hwo) as (Hento & Hsubo & Hdgo).
  destruct (well_formed_spec cur Hwc) as (Hentc & Hsubc & Hdgc).
  assert (Hout : forall (x : sparsifier) n,
            (forall n, n ∈ container_names (_container x) ->
               is_Some (state x !! n)) ->
            state x !! n = None ->
            params (_container x) !! n = None /\
            parametrizations (_container x) !! n = None).
  { intros x n Hsub Hn. split; apply eq_None_not_Some; intros Hsome.
    - destruct (Hsub n) as [st Hst]; [|congruence].
      unfold container_names. apply elem_of_union_l, elem_of_dom, Hsome.
    - destruct (Hsub n) as [st Hst]; [|congruence].
      unfold container_names. apply elem_of_union_r, elem_of_dom, Hsome. }
  assert (Hexcl : forall n, is_Some (state cur !! n) ->
            state other !! n = None).
  { intros n Hn. apply eq_None_not_Some. intros Ho.
    apply elem_of_dom in Hn, Ho. exact (Hdisj n Hn Ho). }
  exists {| defaults := defaults cur;
            state := state cur ∪ state other;
            data_groups := data_groups cur ∪ data_groups other;
            _container :=
              {| params := params (_container cur) ∪ params (_container other);
                 parametrizations :=
                   parametrizations (_container cur)
                   ∪ parametrizations (_container other) |} |}.
  split.
  - unfold load_state_dict.
    cbn [state_dict sd_state sd_data_groups sd_container].
    unfold bind at 1. unfold ret at 1.
    unfold bind at 1. rewrite (load_container_merge other cur Hwo).
    + reflexivity.
    + intros n Hn Hin. apply Hsubc in Hin. apply Hexcl in Hin.
      destruct Hn as [x Hx]. congruence.
  - apply well_formed_intro; cbn [state data_groups _container].
    + intros n st Hn. apply lookup_union_Some_raw in Hn as [Hn|[Hnone Hn]].
      * destruct (Hout other n Hsubo (Hexcl n ltac:(eauto))) as [Hp Hq].
        destruct (entry_ok_inv cur n st (Hentc n st Hn)) as ([cfg Hcfg] & _).
        apply (entry_ok_merge cur other _ _ _ _ n st cur (Hentc n st Hn)).
        -- rewrite lookup_union, Hcfg.
           destruct (data_groups other !! n); eauto.
        -- cbn. rewrite lookup_union, Hp.
           destruct (params (_container cur) !! n); reflexivity.
        -- cbn. rewrite lookup_union, Hq.
           destruct (parametrizations (_container cur) !! n); reflexivity.
      * destruct (Hout cur n Hsubc Hnone) as [Hp Hq].
        destruct (entry_ok_inv other n st (Hento n st Hn)) as ([cfg Hcfg] & _).
        apply (entry_ok_merge cur other _ _ _ _ n st other (Hento n st Hn)).
        -- rewrite lookup_union, Hcfg.
           destruct (data_groups cur !! n); eauto.
        -- cbn. rewrite lookup_union, Hp.
           destruct (params (_container other) !! n); reflexivity.
        -- cbn. rewrite lookup_union, Hq.
           destruct (parametrizations (_container other) !! n); reflexivity.
    + intros n Hn. unfold container_names in Hn. cbn in Hn.
      rewrite !dom_union_L in Hn.
      assert (Hor : n ∈ container_names (_container cur)
                    \/ n ∈ container_names (_container other))
        by (unfold container_names; clear -Hn; set_solver).
      destruct Hor as [Hc|Ho].
      * destruct (Hsubc n Hc) as [st Hst]. exists st.
        apply lookup_union_Some_raw. left. exact Hst.
      * destruct (Hsubo n Ho) as [st Hst].
        destruct (state cur !! n) as [st'|] eqn:Ec.
        -- exists st'. apply lookup_union_Some_raw. left. exact Ec.
        -- exists st. apply lookup_union_Some_raw. right. split; assumption.
    + apply lookup_union_None. split; assumption.
Qed.

End Model.

(** ** Concrete instances *)

(** No caller-supplied parametrization class, and no attribute name in the
    way. *)
Definition no_user_forward : string -> tensor -> tensor -> tensor :=
  fun _ _ x => x.
Definition no_module_attr : string -> bool := fun _ => false.

Definition weight_a : tensor := mkTensor [2%nat] [3; 4]%Z.
Definition weight_b : tensor := mkTensor [2%nat] [5; 6]%Z.
Definition mask_3 : tensor := mkTensor [3%nat] [1; 0; 1]%Z.

(** [BaseDataSparsifier()] with no data and no defaults. *)
Definition fresh : sparsifier :=
  (init no_user_forward no_module_attr None ∅).2.

(** After [add_data('w', weight_a)]. *)
Definition with_w : sparsifier :=
  (add_data no_user_forward no_module_attr "w" (DTensor weight_a) ∅ fresh).2.

(** After [add_data('v', weight_b)] and [squash_mask(names=['w'])] on top. *)
Definition with_w_squashed : sparsifier :=
  (squash_mask no_user_forward (Some ["w"]) true
     (add_data no_user_forward no_module_attr "v" (DTensor weight_b) ∅ with_w).2).2.

(** After [add_data('a', weight_a, mask=mask_3)], which raises: the mask
    has another shape than the weight. *)
Definition after_failed_add : sparsifier :=
  (add_data no_user_forward no_module_attr "a" (DTensor weight_a)
     {["mask" := VTensor mask_3]} fresh).2.

(** A name in [state] that was never added: reading [self.state['x']] on
    the [defaultdict] creates it. *)
Definition with_stray_state : sparsifier :=
  {| defaults := ∅; state := {["x" := ∅]}; data_groups := ∅;
     _container := empty_container |}.

(** After [add_data('parametrization', weight_a)]. *)
Definition with_parametrization_name : sparsifier :=
  (add_data no_user_forward no_module_attr "parametrization"
     (DTensor weight_a) ∅ fresh).2.

Lemma get_data_value_error_witness :
  get_data no_user_forward "missing" false with_w = (Err ValueError, with_w) /\
  get_data no_user_forward "w" true with_w_squashed
    = (Err ValueError, with_w_squashed).
Proof.
  split.
  - apply (get_data_value_error no_user_forward with_w "missing" false).
    left. vm_compute. reflexivity.
  - apply (get_data_value_error no_user_forward with_w_squashed "w" true).
    right. split; vm_compute; reflexivity.
Defined.

(** After [add_data('w', weight_b)] on top of [with_w]: the name exists
    and is replaced. *)
Definition with_w_replaced : sparsifier :=
  (add_data no_user_forward no_module_attr "w" (DTensor weight_b) ∅ with_w).2.

Lemma add_data_invariant_witness :
  "w" ∈ dom (data_groups with_w_replaced) /\
  (exists d m, state with_w_replaced !! "w" = Some d /\
               d !! "mask" = Some (VTensor m)) /\
  is_parametrized (_container with_w_replaced) "w" = true /\
  (exists weight p,
     _extract_weight (DTensor weight_b) = Some weight /\
     parametrizations (_container with_w_replaced) !! "w"
       = Some {| original := weight; mods := [p] |} /\
     params (_container with_w_replaced) !! "w" = None) /\
  container_names (_container with_w_replaced)
    = {["w"]} ∪ container_names (_container with_w) /\
  (is_Some (state with_w !! "w") ->
     dom (state with_w_replaced) = dom (state with_w) /\
     container_names (_container with_w_replaced)
       = container_names (_container with_w)) /\
  (forall n, n <> "w" ->
     state with_w_replaced !! n = state with_w !! n /\
     data_groups with_w_replaced !! n = data_groups with_w !! n /\
     params (_container with_w_replaced) !! n = params (_container with_w) !! n /\
     parametrizations (_container with_w_replaced) !! n
       = parametrizations (_container with_w) !! n).
Proof.
  apply (add_data_invariant no_user_forward no_module_attr
           with_w with_w_replaced "w" (DTensor weight_b) ∅ weight_b).
  vm_compute. reflexivity.
Defined.

(** C10, as stated, fails.  A name of [state] without a configuration in
    [data_groups] makes the loader raise [RuntimeError] (the guard of lines
    148-150).  And a parameter the container holds under a name that is not
    in [state] is not restored: after [add_data('a', weight_a, mask=mask_3)]
    has raised, the container holds [a], and loading the instance's own
    state dictionary succeeds and leaves a container without it. *)
Lemma load_own_state_dict_counterexample :
  (load_state_dict no_user_forward no_module_attr
     (state_dict with_stray_state) true with_stray_state).1
    = Err RuntimeError /\
  (add_data no_user_forward no_module_attr "a" (DTensor weight_a)
     {["mask" := VTensor mask_3]} fresh).1 = Err AssertionError /\
  sd_container (state_dict after_failed_add) !! "a" = Some weight_a /\
  (load_state_dict no_user_forward no_module_attr
     (state_dict after_failed_add) true after_failed_add).1 = Ok tt /\
  sd_container
    (state_dict
       (load_state_dict no_user_forward no_module_attr
          (state_dict after_failed_add) true after_failed_add).2) !! "a"
    = None.
Proof.
  repeat split; vm_compute; reflexivity.
Qed.

(** The slip of line 175 at work: with a data called [parametrization],
    [data_groups.get('parametrization', FakeSparsity)] is that data's
    configuration, calling it raises [TypeError], and the instance is left
    with the container reset and the data no longer parametrized. *)
Lemma load_state_dict_parametrization_name :
  well_formed no_module_attr with_parametrization_name = false /\
  is_parametrized (_container with_parametrization_name) "parametrization"
    = true /\
  (load_state_dict no_user_forward no_module_attr
     (state_dict with_parametrization_name) true with_parametrization_name).1
    = Err TypeError /\
  is_parametrized
    (_container
       (load_state_dict no_user_forward no_module_attr
          (state_dict with_parametrization_name) true
          with_parametrization_name).2) "parametrization"
    = false.
Proof.
  repeat split; vm_compute; reflexivity.
Qed.

Lemma load_own_state_dict_witness :
  well_formed no_module_attr with_w_squashed = true /\
  load_state_dict no_user_forward no_module_attr
    (state_dict with_w_squashed) true with_w_squashed
  = (Ok tt, with_w_squashed).
Proof.
  split.
  - vm_compute. reflexivity.
  - apply (load_own_state_dict no_user_forward no_module_attr with_w_squashed).
    vm_compute. reflexivity.
Defined.

(** ** Further instances *)

Definition mask_2 : tensor := mkTensor [2%nat] [1; 0]%Z.

(** An [update_mask] that leaves the masks alone. *)
Definition no_update_mask
  : string -> tensor -> gmap string cfgval -> St sparsifier unit :=
  fun _ _ _ => ret tt.

(** After [add_data('m', weight_a, mask=mask_2)]. *)
Definition with_m : sparsifier :=
  (add_data no_user_forward no_module_attr "m" (DTensor weight_a)
     {["mask" := VTensor mask_2]} fresh).2.

(** After [squash_mask()] on top. *)
Definition with_m_squashed : sparsifier :=
  (squash_mask no_user_forward None true with_m).2.

(** [with_w] after a strict load of the dictionary of
    [with_parametrization_name], which raises. *)
Definition after_failed_load : sparsifier :=
  (load_state_dict no_user_forward no_module_attr
     (state_dict with_parametrization_name) true with_w).2.

(** [with_m] after a load of the dictionary of [with_w_squashed] with
    [strict=False]. *)
Definition with_m_merged : sparsifier :=
  (load_state_dict no_user_forward no_module_attr
     (state_dict with_w_squashed) false with_m).2.

Definition two_data : list (string * data_obj) :=
  [("w", DTensor weight_a); ("v", DParameter weight_b)].

Lemma add_data_then_get_mask_witness :
  exists weight,
    _extract_weight (DTensor weight_a) = Some weight /\
    get_mask "m" with_m
    = (Ok (default (VTensor (ones_like weight))
             (({["mask" := VTensor mask_2]} ∪ defaults fresh) !! "mask")),
       with_m).
Proof.
  apply (add_data_then_get_mask no_user_forward no_module_attr fresh with_m "m"
           (DTensor weight_a) {["mask" := VTensor mask_2]}
           (tensor_mul mask_2 weight_a)).
  vm_compute. reflexivity.
Defined.

Lemma add_data_then_get_data_witness :
  exists weight,
    _extract_weight (DTensor weight_a) = Some weight /\
    get_data no_user_forward "m" true with_m = (Ok weight, with_m) /\
    get_data no_user_forward "m" false with_m
      = (Ok (tensor_mul mask_2 weight_a), with_m) /\
    (({["mask" := VTensor mask_2]} ∪ defaults fresh) !! "mask" = None ->
     tensor_mul mask_2 weight_a = weight).
Proof.
  apply (add_data_then_get_data no_user_forward no_module_attr fresh with_m "m"
           (DTensor weight_a) {["mask" := VTensor mask_2]}
           (tensor_mul mask_2 weight_a)).
  - vm_compute. reflexivity.
  - vm_compute. reflexivity.
Defined.

Lemma squash_mask_keeps_value_witness :
  exists t,
    get_data no_user_forward "m" (negb true) with_m = (Ok t, with_m) /\
    get_data no_user_forward "m" false
      (squash_mask no_user_forward (Some ["m"]) true with_m).2
    = (Ok t, (squash_mask no_user_forward (Some ["m"]) true with_m).2).
Proof.
  apply (squash_mask_keeps_value no_user_forward with_m
           (squash_mask no_user_forward (Some ["m"]) true with_m).2
           "m" true tt).
  - exists ({["mask" := VTensor mask_2]} : gmap string cfgval).
    vm_compute. reflexivity.
  - vm_compute. reflexivity.
Defined.

Lemma squash_mask_twice_witness :
  squash_mask no_user_forward None false with_m_squashed
  = (Err ValueError, with_m_squashed).
Proof.
  apply (squash_mask_twice no_user_forward with_m with_m_squashed None
           true false tt).
  - vm_compute. discriminate.
  - vm_compute. reflexivity.
Defined.

Lemma add_data_failure_witness :
  state after_failed_add = state fresh /\
  defaults after_failed_add = defaults fresh /\
  ((supported (DTensor weight_a) = false /\
    AssertionError = AssertionError /\ after_failed_add = fresh) \/
   (supported (DTensor weight_a) = true /\
    data_groups after_failed_add
    = <["a" := {["mask" := VTensor mask_3]} ∪ defaults fresh]>
        (data_groups fresh))).
Proof.
  apply (add_data_failure no_user_forward no_module_attr fresh after_failed_add
           "a" (DTensor weight_a) {["mask" := VTensor mask_3]} AssertionError).
  vm_compute. reflexivity.
Defined.

Lemma load_state_dict_failure_witness :
  state after_failed_load = state with_w /\
  data_groups after_failed_load = data_groups with_w /\
  defaults after_failed_load = defaults with_w /\
  container_names (_container after_failed_load)
    ⊆ dom (sd_state (state_dict with_parametrization_name))
      ∪ (if true then ∅ else container_names (_container with_w)).
Proof.
  apply (load_state_dict_failure no_user_forward no_module_attr
           (state_dict with_parametrization_name) true with_w
           after_failed_load TypeError).
  vm_compute. reflexivity.
Defined.

Lemma load_state_dict_success_witness :
  defaults with_m_merged = defaults with_m /\
  state with_m_merged
    = (if false then sd_state (state_dict with_w_squashed)
       else state with_m ∪ sd_state (state_dict with_w_squashed)) /\
  data_groups with_m_merged
    = (if false then sd_data_groups (state_dict with_w_squashed)
       else data_groups with_m ∪ sd_data_groups (state_dict with_w_squashed)) /\
  container_names (_container with_m_merged)
    = dom (sd_state (state_dict with_w_squashed))
      ∪ (if false then ∅ else container_names (_container with_m)) /\
  forall n, is_Some (sd_state (state_dict with_w_squashed) !! n) ->
    is_Some (sd_data_groups (state_dict with_w_squashed) !! n) /\
    (is_Some (sd_container (state_dict with_w_squashed) !! n) \/
     (is_Some (sd_container (state_dict with_w_squashed)
               !! parametrized_name n) /\
      sd_data_groups (state_dict with_w_squashed) !! "parametrization" = None)).
Proof.
  apply (load_state_dict_success no_user_forward no_module_attr
           (state_dict with_w_squashed) false with_m with_m_merged tt).
  - intros n Hn.
    assert (E : dom (sd_state (state_dict with_w_squashed)) = {["v"; "w"]})
      by (vm_compute; reflexivity).
    apply elem_of_dom in Hn. rewrite E in Hn.
    apply elem_of_union in Hn as [Hn|Hn]; apply elem_of_singleton in Hn;
      subst n; vm_compute; reflexivity.
  - vm_compute. reflexivity.
Defined.

Lemma load_state_dict_transfer_witness :
  load_state_dict no_user_forward no_module_attr
    (state_dict with_w_squashed) true with_m
  = (Ok tt, {| defaults := defaults with_m; state := state with_w_squashed;
               data_groups := data_groups with_w_squashed;
               _container := _container with_w_squashed |}).
Proof.
  apply (load_state_dict_transfer no_user_forward no_module_attr
           with_w_squashed with_m).
  vm_compute. reflexivity.
Defined.


Lemma pickle_round_trip_witness :
  unpickle no_user_forward no_module_attr (__getstate__ with_w_squashed) with_m
  = (Ok tt, with_w_squashed).
Proof.
  apply (pickle_round_trip no_user_forward no_module_attr with_w_squashed with_m).
  vm_compute. reflexivity.
Defined.

Lemma step_after_squash_mask_witness :
  step no_user_forward no_update_mask true with_m_squashed
  = (if true then Err ValueError else Ok tt, with_m_squashed).
Proof.
  apply (step_after_squash_mask no_user_forward no_update_mask
           with_m with_m_squashed true true tt).
  - intros H. apply (f_equal (fun g => g !! "m")) in H.
    vm_compute in H. discriminate.
  - vm_compute. reflexivity.
Defined.

Lemma init_well_formed_witness :
  well_formed no_module_attr
    (init no_user_forward no_module_attr (Some two_data) ∅).2 = true /\
  defaults (init no_user_forward no_module_attr (Some two_data) ∅).2 = ∅ /\
  dom (state (init no_user_forward no_module_attr (Some two_data) ∅).2)
    = list_to_set two_data.*1 /\
  dom (data_groups (init no_user_forward no_module_attr (Some two_data) ∅).2)
    = list_to_set two_data.*1 /\
  forall n, n ∈ two_data.*1 ->
    is_parametrized
      (_container (init no_user_forward no_module_attr (Some two_data) ∅).2) n
    = true.
Proof.
  apply (init_well_formed no_user_forward no_module_attr two_data ∅ tt
           (init no_user_forward no_module_attr (Some two_data) ∅).2).
  - vm_compute. reflexivity.
  - intros nd Hnd. apply list_elem_of_In in Hnd. simpl in Hnd.
    destruct Hnd as [<-|[<-|[]]]; discriminate.
  - vm_compute. reflexivity.
Defined.

Lemma add_data_idempotent_witness :
  add_data no_user_forward no_module_attr "m" (DTensor weight_a)
    {["mask" := VTensor mask_2]} with_m
  = (Ok (tensor_mul mask_2 weight_a), with_m).
Proof.
  apply (add_data_idempotent no_user_forward no_module_attr fresh with_m "m"
           (DTensor weight_a) {["mask" := VTensor mask_2]}
           (tensor_mul mask_2 weight_a)).
  - vm_compute. reflexivity.
  - vm_compute. reflexivity.
Defined.


Lemma squash_mask_well_formed_witness :
  well_formed no_module_attr with_m_squashed = true.
Proof.
  apply (squash_mask_well_formed no_user_forward no_module_attr None true
           with_m with_m_squashed tt).
  - vm_compute. reflexivity.
  - vm_compute. reflexivity.
Defined.

Lemma squash_mask_all_succeeds_witness :
  (squash_mask no_user_forward None true with_m).1 = Ok tt.
Proof.
  apply (squash_mask_all_succeeds no_user_forward no_module_attr with_m true).
  - vm_compute. reflexivity.
  - intros n [cfg Hn]. destruct (decide (n = "m")) as [->|Hne].
    + vm_compute. reflexivity.
    + assert (E : dom (data_groups with_m) = {["m"]})
        by (vm_compute; reflexivity).
      assert (Hin : n ∈ dom (data_groups with_m))
        by (apply elem_of_dom; eauto).
      rewrite E in Hin. apply elem_of_singleton in Hin. contradiction.
Defined.

Lemma load_state_dict_merge_well_formed_witness :
  exists s',
    load_state_dict no_user_forward no_module_attr
      (state_dict with_w_squashed) false with_m = (Ok tt, s') /\
    well_formed no_module_attr s' = true.
Proof.
  apply (load_state_dict_merge_well_formed no_user_forward no_module_attr
           with_w_squashed with_m).
  - vm_compute. reflexivity.
  - vm_compute. reflexivity.
  - assert (E1 : dom (state with_m) = {["m"]}) by (vm_compute; reflexivity).
    assert (E2 : dom (state with_w_squashed) = {["v"; "w"]})
      by (vm_compute; reflexivity).
    rewrite E1, E2. set_solver.
Defined.

End DataSparsifier.
